(** * Verification of the Cursor background-agent supervisor

    Shallow embedding of [src/cli/simple-commands/cursor-background-agent.js]
    (class [CursorBackgroundAgent]) and of the JavaScript run-time objects it
    relies on: the insertion-ordered [Map] holding the memory store, the
    ordinary object used for the on-disk snapshot, the interval timers, the
    child process handle and the files under [.cursor/].

    Asynchronous methods are modelled in a state-and-exception monad over the
    machine (agent object, outside world, observable effects).  Every answer
    that comes from outside the program (clock, heap size, spawn result,
    file-system and GitHub responses) is read from an environment record. *)

From Stdlib Require Import List String Ascii Bool Arith ZArith NArith Lia.
From Stdlib Require Import DecimalString Permutation RelationClasses.
Import ListNotations.

Local Open Scope string_scope.
Local Open Scope Z_scope.

(* ===================================================================== *)
(** * JavaScript run-time values used by the agent *)
(* ===================================================================== *)

(** Errors carry the [message] the handlers interpolate into their texts. *)
Inductive JsError :=
| TypeError (message : string)
| SyntaxError (message : string)
| SystemError (message : string).

Definition message (e : JsError) : string :=
  match e with
  | TypeError m | SyntaxError m | SystemError m => m
  end.

(** Decimal rendering of a number inside a template literal. *)
Definition show_nat (n : nat) : string := NilZero.string_of_uint (Nat.to_uint n).

(** ** Map: the ECMAScript [[MapData]] list

    A [Map] is a list of slots in insertion order.  [delete] empties the slot
    and keeps its position, which is what lets an iterator that walks the
    list by index survive deletions made by the loop body. *)
Module JsMap.
Section WithValue.
Context {V : Type}.

Definition slot : Type := option (string * V).
Definition t : Type := list slot.

Definition empty : t := [].

Fixpoint get (m : t) (k : string) : option V :=
  match m with
  | [] => None
  | Some (k', v) :: m' => if String.eqb k' k then Some v else get m' k
  | None :: m' => get m' k
  end.

Fixpoint set (m : t) (k : string) (v : V) : t :=
  match m with
  | [] => [Some (k, v)]
  | Some (k', v') :: m' =>
      if String.eqb k' k then Some (k', v) :: m' else Some (k', v') :: set m' k v
  | None :: m' => None :: set m' k v
  end.

Fixpoint delete (m : t) (k : string) : t :=
  match m with
  | [] => []
  | Some (k', v') :: m' =>
      if String.eqb k' k then None :: m' else Some (k', v') :: delete m' k
  | None :: m' => None :: delete m' k
  end.

(** The live entries, in iteration order. *)
Fixpoint entries (m : t) : list (string * V) :=
  match m with
  | [] => []
  | Some kv :: m' => kv :: entries m'
  | None :: m' => entries m'
  end.

Definition keys (m : t) : list string := map fst (entries m).

Definition size (m : t) : nat := List.length (entries m).

(** A [Map] never holds two live slots with the same key. *)
Definition WF (m : t) : Prop := NoDup (keys m).

(** [new Map(iterable)] / repeated [set] from a list of pairs. *)
Definition set_all (m : t) (kvs : list (string * V)) : t :=
  fold_left (fun acc kv => set acc (fst kv) (snd kv)) kvs m.
End WithValue.
Arguments t : clear implicits.
End JsMap.

(** ** Ordinary objects with string keys

    Own properties are kept in creation order; enumeration
    ([Object.entries], [JSON.stringify]) lists array-index keys first, in
    ascending numeric order, then the remaining keys in creation order. *)
Module JsObject.
Section WithValue.
Context {V : Type}.

Definition t : Type := list (string * V).

(** [CreateDataProperty]: overwrite in place or append. *)
Fixpoint define (o : t) (k : string) (v : V) : t :=
  match o with
  | [] => [(k, v)]
  | (k', v') :: o' =>
      if String.eqb k' k then (k', v) :: o' else (k', v') :: define o' k v
  end.

(** [Object.fromEntries(iterable)] and the object a JSON parser builds
    from the members of an object literal, in textual order. *)
Definition fromEntries (kvs : list (string * V)) : t :=
  fold_left (fun acc kv => define acc (fst kv) (snd kv)) kvs [].

Definition digit_of (c : ascii) : option N :=
  let n := N_of_ascii c in
  if ((48 <=? n) && (n <=? 57))%N then Some (n - 48)%N else None.

Fixpoint digits_value (s : string) (acc : N) : option N :=
  match s with
  | EmptyString => Some acc
  | String c s' =>
      match digit_of c with
      | Some d => digits_value s' (10 * acc + d)%N
      | None => None
      end
  end.

(** A key is an array index when it is the canonical decimal form of an
    integer in [0, 2^32 - 2]. *)
Definition array_index (k : string) : option N :=
  match k with
  | EmptyString => None
  | String "0"%char EmptyString => Some 0%N
  | String "0"%char _ => None
  | _ => match digits_value k 0 with
         | Some n => if (n <=? 4294967294)%N then Some n else None
         | None => None
         end
  end.

Fixpoint insert_index (n : N) (p : string * V) (l : list (N * (string * V)))
  : list (N * (string * V)) :=
  match l with
  | [] => [(n, p)]
  | (n', p') :: l' =>
      if (n <=? n')%N then (n, p) :: l else (n', p') :: insert_index n p l'
  end.

Fixpoint index_props (o : t) : list (N * (string * V)) :=
  match o with
  | [] => []
  | p :: o' =>
      match array_index (fst p) with
      | Some n => insert_index n p (index_props o')
      | None => index_props o'
      end
  end.

Fixpoint string_props (o : t) : list (string * V) :=
  match o with
  | [] => []
  | p :: o' =>
      match array_index (fst p) with
      | Some _ => string_props o'
      | None => p :: string_props o'
      end
  end.

(** [Object.entries(o)]. *)
Definition entries (o : t) : list (string * V) :=
  map snd (index_props o) ++ string_props o.
End WithValue.
Arguments t : clear implicits.
End JsObject.

(* ===================================================================== *)
(** * Data model *)
(* ===================================================================== *)

(** An entry of the memory store: an opaque payload and the time it was
    written, in milliseconds since the epoch (what [Date.now()] returns). *)
Record MemoryEntry := {
  payload : string;
  timestamp : Z
}.

Definition MemoryStore : Type := JsMap.t MemoryEntry.

(** The handle returned by [spawn]: [pid] is undefined when the spawn
    failed, [exited] records that the 'exit' event has been delivered. *)
Record ChildProcess := {
  pid : option nat;
  exited : bool
}.

Inductive GitHubAPIClient := GitHubClient.

(** The fields of a [CursorBackgroundAgent] instance.  The three file paths
    are functions of [workspace] and are named by [File] below. *)
Record Agent := {
  workspace : string;
  port : Z;
  logLevel : string;
  autoStart : bool;
  process : option ChildProcess;
  isRunning : bool;
  restartCount : nat;
  maxRestarts : nat;
  githubAPI : option GitHubAPIClient;
  githubConnected : bool;
  memoryStore : MemoryStore;
  startTime : option Z;
  healthCheckInterval : option nat;
  memoryCleanupInterval : option nat;
  githubSyncInterval : option nat
}.

Definition set_port (v : Z) (a : Agent) : Agent :=
  {| workspace := workspace a; port := v; logLevel := logLevel a;
     autoStart := autoStart a; process := process a; isRunning := isRunning a;
     restartCount := restartCount a; maxRestarts := maxRestarts a;
     githubAPI := githubAPI a; githubConnected := githubConnected a;
     memoryStore := memoryStore a; startTime := startTime a;
     healthCheckInterval := healthCheckInterval a;
     memoryCleanupInterval := memoryCleanupInterval a;
     githubSyncInterval := githubSyncInterval a |}.

Definition set_logLevel (v : string) (a : Agent) : Agent :=
  {| workspace := workspace a; port := port a; logLevel := v;
     autoStart := autoStart a; process := process a; isRunning := isRunning a;
     restartCount := restartCount a; maxRestarts := maxRestarts a;
     githubAPI := githubAPI a; githubConnected := githubConnected a;
     memoryStore := memoryStore a; startTime := startTime a;
     healthCheckInterval := healthCheckInterval a;
     memoryCleanupInterval := memoryCleanupInterval a;
     githubSyncInterval := githubSyncInterval a |}.

Definition set_process (v : option ChildProcess) (a : Agent) : Agent :=
  {| workspace := workspace a; port := port a; logLevel := logLevel a;
     autoStart := autoStart a; process := v; isRunning := isRunning a;
     restartCount := restartCount a; maxRestarts := maxRestarts a;
     githubAPI := githubAPI a; githubConnected := githubConnected a;
     memoryStore := memoryStore a; startTime := startTime a;
     healthCheckInterval := healthCheckInterval a;
     memoryCleanupInterval := memoryCleanupInterval a;
     githubSyncInterval := githubSyncInterval a |}.

Definition set_isRunning (v : bool) (a : Agent) : Agent :=
  {| workspace := workspace a; port := port a; logLevel := logLevel a;
     autoStart := autoStart a; process := process a; isRunning := v;
     restartCount := restartCount a; maxRestarts := maxRestarts a;
     githubAPI := githubAPI a; githubConnected := githubConnected a;
     memoryStore := memoryStore a; startTime := startTime a;
     healthCheckInterval := healthCheckInterval a;
     memoryCleanupInterval := memoryCleanupInterval a;
     githubSyncInterval := githubSyncInterval a |}.

Definition set_restartCount (v : nat) (a : Agent) : Agent :=
  {| workspace := workspace a; port := port a; logLevel := logLevel a;
     autoStart := autoStart a; process := process a; isRunning := isRunning a;
     restartCount := v; maxRestarts := maxRestarts a;
     githubAPI := githubAPI a; githubConnected := githubConnected a;
     memoryStore := memoryStore a; startTime := startTime a;
     healthCheckInterval := healthCheckInterval a;
     memoryCleanupInterval := memoryCleanupInterval a;
     githubSyncInterval := githubSyncInterval a |}.

Definition set_githubAPI (v : option GitHubAPIClient) (a : Agent) : Agent :=
  {| workspace := workspace a; port := port a; logLevel := logLevel a;
     autoStart := autoStart a; process := process a; isRunning := isRunning a;
     restartCount := restartCount a; maxRestarts := maxRestarts a;
     githubAPI := v; githubConnected := githubConnected a;
     memoryStore := memoryStore a; startTime := startTime a;
     healthCheckInterval := healthCheckInterval a;
     memoryCleanupInterval := memoryCleanupInterval a;
     githubSyncInterval := githubSyncInterval a |}.

Definition set_githubConnected (v : bool) (a : Agent) : Agent :=
  {| workspace := workspace a; port := port a; logLevel := logLevel a;
     autoStart := autoStart a; process := process a; isRunning := isRunning a;
     restartCount := restartCount a; maxRestarts := maxRestarts a;
     githubAPI := githubAPI a; githubConnected := v;
     memoryStore := memoryStore a; startTime := startTime a;
     healthCheckInterval := healthCheckInterval a;
     memoryCleanupInterval := memoryCleanupInterval a;
     githubSyncInterval := githubSyncInterval a |}.

Definition set_memoryStore (v : MemoryStore) (a : Agent) : Agent :=
  {| workspace := workspace a; port := port a; logLevel := logLevel a;
     autoStart := autoStart a; process := process a; isRunning := isRunning a;
     restartCount := restartCount a; maxRestarts := maxRestarts a;
     githubAPI := githubAPI a; githubConnected := githubConnected a;
     memoryStore := v; startTime := startTime a;
     healthCheckInterval := healthCheckInterval a;
     memoryCleanupInterval := memoryCleanupInterval a;
     githubSyncInterval := githubSyncInterval a |}.

Definition set_startTime (v : option Z) (a : Agent) : Agent :=
  {| workspace := workspace a; port := port a; logLevel := logLevel a;
     autoStart := autoStart a; process := process a; isRunning := isRunning a;
     restartCount := restartCount a; maxRestarts := maxRestarts a;
     githubAPI := githubAPI a; githubConnected := githubConnected a;
     memoryStore := memoryStore a; startTime := v;
     healthCheckInterval := healthCheckInterval a;
     memoryCleanupInterval := memoryCleanupInterval a;
     githubSyncInterval := githubSyncInterval a |}.

Definition set_intervals (h m g : option nat) (a : Agent) : Agent :=
  {| workspace := workspace a; port := port a; logLevel := logLevel a;
     autoStart := autoStart a; process := process a; isRunning := isRunning a;
     restartCount := restartCount a; maxRestarts := maxRestarts a;
     githubAPI := githubAPI a; githubConnected := githubConnected a;
     memoryStore := memoryStore a; startTime := startTime a;
     healthCheckInterval := h;
     memoryCleanupInterval := m;
     githubSyncInterval := g |}.

(** ** The world outside the agent object *)

Inductive File := PidFile | LogFile | ConfigFile | MemoryFile.

Inductive Task := HealthCheck | MemoryCleanup | GitHubSync.

Definition Task_eqb (x y : Task) : bool :=
  match x, y with
  | HealthCheck, HealthCheck | MemoryCleanup, MemoryCleanup
  | GitHubSync, GitHubSync => true
  | _, _ => false
  end.

(** Text of [memory.json].  A well-formed snapshot is represented by the
    members of its top-level object, in the order they appear in the text;
    anything [JSON.parse] rejects is [NotJson]. *)
Inductive MemoryDocument :=
| JsonObject (members : list (string * MemoryEntry))
| NotJson.

Record BackgroundAgentConfig := {
  cfg_port : option Z;
  cfg_logLevel : option string
}.

(** Text of [config.json]: unparsable, or an object with an optional
    [backgroundAgent] member. *)
Inductive ConfigDocument :=
| ConfigJson (backgroundAgent : option BackgroundAgentConfig)
| ConfigNotJson.

Record World := {
  pidFile : option nat;
  logFile : list (Z * string);
  configFile : option ConfigDocument;
  memoryFile : option MemoryDocument;
  timers : list (nat * Task);
  nextTimer : nat
}.

Definition set_pidFile (v : option nat) (w : World) : World :=
  {| pidFile := v; logFile := logFile w; configFile := configFile w;
     memoryFile := memoryFile w; timers := timers w; nextTimer := nextTimer w |}.

Definition set_logFile (v : list (Z * string)) (w : World) : World :=
  {| pidFile := pidFile w; logFile := v; configFile := configFile w;
     memoryFile := memoryFile w; timers := timers w; nextTimer := nextTimer w |}.

Definition set_memoryFile (v : option MemoryDocument) (w : World) : World :=
  {| pidFile := pidFile w; logFile := logFile w; configFile := configFile w;
     memoryFile := v; timers := timers w; nextTimer := nextTimer w |}.

Definition set_timers (v : list (nat * Task)) (n : nat) (w : World) : World :=
  {| pidFile := pidFile w; logFile := logFile w; configFile := configFile w;
     memoryFile := memoryFile w; timers := v; nextTimer := n |}.

Inductive Signal := SIGTERM | SIGKILL.

Inductive SpawnResult :=
| SpawnPid (p : nat)
| SpawnFails (reason : string).

Inductive outcome (A : Type) : Type :=
| Returned (x : A)
| Thrown (e : JsError).
Arguments Returned {A} x.
Arguments Thrown {A} e.

Record RepositoryList := {
  success : bool;
  data : string
}.

(** Answers of the environment during one call. *)
Record Env := {
  now : Z;                                   (* Date.now() *)
  heapUsed : Z;                              (* process.memoryUsage().heapUsed *)
  spawn_result : SpawnResult;                (* outcome of spawn('node', ...) *)
  exits_on_SIGTERM : bool;                   (* child exits within the grace period *)
  signal0_alive : bool;                      (* process.kill(pid, 0) succeeds *)
  write_error : File -> option string;       (* writeFile: None on success *)
  rm_error : option string;                  (* rm of the PID file *)
  github_module : bool;                      (* import('./github/github-api.js') *)
  github_authenticate : outcome bool;
  github_listRepositories : outcome RepositoryList
}.

(** ** Observable effects *)

Inductive Level := LInfo | LWarning | LError | LSuccess.

Inductive AgentEvent :=
| EvStarted
| EvStopped
| EvError (e : JsError)
| EvFailed
| EvExited (code : option nat) (signal : option Signal).

Inductive Effect :=
| Console (l : Level) (text : string)
| Emit (ev : AgentEvent)
| Spawn (port : Z)
| Kill (p : option nat) (s : Signal)
| SetInterval (task : Task) (ms : Z) (id : nat)
| ClearInterval (id : nat)
| Wait (ms : Z).

Record Machine := {
  this : Agent;
  world : World;
  effects : list Effect
}.

(* ===================================================================== *)
(** * The monad of asynchronous methods *)
(* ===================================================================== *)

Definition Async (A : Type) : Type := Env -> Machine -> outcome A * Machine.

Definition ret {A} (x : A) : Async A := fun _ s => (Returned x, s).

Definition bind {A B} (m : Async A) (k : A -> Async B) : Async B :=
  fun env s =>
    match m env s with
    | (Returned x, s') => k x env s'
    | (Thrown e, s') => (Thrown e, s')
    end.

Definition throw {A} (e : JsError) : Async A := fun _ s => (Thrown e, s).

Definition try_catch {A} (body : Async A) (handler : JsError -> Async A) : Async A :=
  fun env s =>
    match body env s with
    | (Returned x, s') => (Returned x, s')
    | (Thrown e, s') => handler e env s'
    end.

Declare Scope async_scope.
Delimit Scope async_scope with async.
Notation "x <- m ;; k" := (bind m (fun x => k))
  (at level 61, m at next level, right associativity) : async_scope.
Notation "m ;; k" := (bind m (fun _ => k))
  (at level 61, right associativity) : async_scope.
Local Open Scope async_scope.

Definition ask : Async Env := fun env s => (Returned env, s).

Definition getThis : Async Agent := fun _ s => (Returned (this s), s).

Definition getWorld : Async World := fun _ s => (Returned (world s), s).

Definition update (f : Agent -> Agent) : Async unit :=
  fun _ s => (Returned tt, {| this := f (this s); world := world s; effects := effects s |}).

Definition updateWorld (f : World -> World) : Async unit :=
  fun _ s => (Returned tt, {| this := this s; world := f (world s); effects := effects s |}).

Definition perform (e : Effect) : Async unit :=
  fun _ s => (Returned tt, {| this := this s; world := world s; effects := effects s ++ [e] |}).

Definition lift {A} (r : outcome A) : Async A :=
  match r with
  | Returned x => ret x
  | Thrown e => throw e
  end.

Definition printInfo (text : string) : Async unit := perform (Console LInfo text).
Definition printWarning (text : string) : Async unit := perform (Console LWarning text).
Definition printError (text : string) : Async unit := perform (Console LError text).
Definition printSuccess (text : string) : Async unit := perform (Console LSuccess text).

(* ===================================================================== *)
(** * The methods of [CursorBackgroundAgent]

    Message texts are the source's without their leading pictograph. *)
(* ===================================================================== *)

(** [constructor(options)], lines 17-43.  [cwd] is [process.cwd()]. *)
Record Options := {
  opt_workspace : option string;
  opt_port : option Z;
  opt_logLevel : option string;
  opt_autoStart : option bool
}.

Definition truthy_string (s : option string) : option string :=
  match s with
  | Some EmptyString | None => None
  | Some s' => Some s'
  end.

Definition truthy_number (n : option Z) : option Z :=
  match n with
  | Some 0 | None => None
  | Some n' => Some n'
  end.

Definition or_else {A} (x : option A) (d : A) : A :=
  match x with
  | Some v => v
  | None => d
  end.

Definition constructor (cwd : string) (options : Options) : Agent :=
  {| workspace := or_else (truthy_string (opt_workspace options)) cwd;
     port := or_else (truthy_number (opt_port options)) 3001;
     logLevel := or_else (truthy_string (opt_logLevel options)) "info";
     autoStart := or_else (opt_autoStart options) false;
     process := None;
     isRunning := false;
     restartCount := 0;
     maxRestarts := 5;
     githubAPI := None;
     githubConnected := false;
     memoryStore := JsMap.empty;
     startTime := None;
     healthCheckInterval := None;
     memoryCleanupInterval := None;
     githubSyncInterval := None |}.

(** [log(message)], lines 515-523: append to the log file; a failed write is
    ignored. *)
Definition log (text : string) : Async unit :=
  env <- ask ;;
  match write_error env LogFile with
  | None => updateWorld (fun w => set_logFile (logFile w ++ [(now env, text)]) w)
  | Some _ => ret tt
  end.

Definition setInterval (task : Task) (ms : Z) : Async nat :=
  w <- getWorld ;;
  perform (SetInterval task ms (nextTimer w)) ;;
  updateWorld (set_timers (timers w ++ [(nextTimer w, task)]) (S (nextTimer w))) ;;
  ret (nextTimer w).

Definition cancel (id : nat) (w : World) : World :=
  set_timers (filter (fun t => negb (Nat.eqb (fst t) id)) (timers w)) (nextTimer w) w.

Definition clearInterval (id : nat) : Async unit :=
  perform (ClearInterval id) ;;
  updateWorld (cancel id).

(** [startMonitoring()], lines 299-314. *)
Definition startMonitoring : Async unit :=
  h <- setInterval HealthCheck 30000 ;;
  update (fun a => set_intervals (Some h) (memoryCleanupInterval a) (githubSyncInterval a) a) ;;
  m <- setInterval MemoryCleanup 300000 ;;
  update (fun a => set_intervals (healthCheckInterval a) (Some m) (githubSyncInterval a) a) ;;
  g <- setInterval GitHubSync 600000 ;;
  update (fun a => set_intervals (healthCheckInterval a) (memoryCleanupInterval a) (Some g) a).

(** [stopMonitoring()], lines 319-329. *)
Definition stopMonitoring : Async unit :=
  a <- getThis ;;
  match healthCheckInterval a with
  | Some id => clearInterval id
  | None => ret tt
  end ;;
  match memoryCleanupInterval a with
  | Some id => clearInterval id
  | None => ret tt
  end ;;
  match githubSyncInterval a with
  | Some id => clearInterval id
  | None => ret tt
  end.

(** [emit(event)] with the listeners registered by [setupEventHandlers()],
    lines 528-546.  'exited' has no listener. *)
Definition emit (ev : AgentEvent) : Async unit :=
  perform (Emit ev) ;;
  match ev with
  | EvStarted => log "Background agent started"
  | EvStopped => log "Background agent stopped" ;; stopMonitoring
  | EvError e => log ("ERROR: " ++ message e)
  | EvFailed => log "Background agent failed permanently" ;; stopMonitoring
  | EvExited _ _ => ret tt
  end.

(** [savePID()], lines 476-482. *)
Definition savePID : Async unit :=
  try_catch
    (a <- getThis ;;
     env <- ask ;;
     match process a with
     | None => throw (TypeError "Cannot read properties of null (reading 'pid')")
     | Some p =>
         match pid p with
         | None => throw (TypeError "Cannot read properties of undefined (reading 'toString')")
         | Some n =>
             match write_error env PidFile with
             | None => updateWorld (set_pidFile (Some n))
             | Some reason => throw (SystemError reason)
             end
         end
     end)
    (fun error => printWarning ("Failed to save PID: " ++ message error)).

Definition JSON_parse (d : MemoryDocument) : Async (JsObject.t MemoryEntry) :=
  match d with
  | JsonObject members => ret (JsObject.fromEntries members)
  | NotJson => throw (SyntaxError "Unexpected token in JSON")
  end.

Definition JSON_stringify (o : JsObject.t MemoryEntry) : MemoryDocument :=
  JsonObject (JsObject.entries o).

Definition readMemoryFile : Async MemoryDocument :=
  w <- getWorld ;;
  match memoryFile w with
  | Some d => ret d
  | None => throw (SystemError "ENOENT: no such file or directory")
  end.

(** A failed write leaves the previous file in place. *)
Definition writeMemoryFile (d : MemoryDocument) : Async unit :=
  env <- ask ;;
  match write_error env MemoryFile with
  | None => updateWorld (set_memoryFile (Some d))
  | Some reason => throw (SystemError reason)
  end.

(** [loadMemory()], lines 487-498. *)
Definition loadMemory : Async unit :=
  try_catch
    (memoryContent <- readMemoryFile ;;
     memoryData <- JSON_parse memoryContent ;;
     update (fun a =>
       set_memoryStore (JsMap.set_all (memoryStore a) (JsObject.entries memoryData)) a))
    (fun _ => ret tt).

(** [saveMemory()], lines 503-510. *)
Definition saveMemory : Async unit :=
  try_catch
    (a <- getThis ;;
     let memoryData := JsObject.fromEntries (JsMap.entries (memoryStore a)) in
     writeMemoryFile (JSON_stringify memoryData))
    (fun error => printWarning ("Failed to save memory: " ++ message error)).

(** [initializeGitHubIntegration()], lines 151-167. *)
Definition initializeGitHubIntegration : Async unit :=
  try_catch
    (env <- ask ;;
     (if github_module env then ret tt
      else throw (SystemError "Cannot find module './github/github-api.js'")) ;;
     update (set_githubAPI (Some GitHubClient)) ;;
     connected <- lift (github_authenticate env) ;;
     update (set_githubConnected connected) ;;
     if connected then printInfo "GitHub integration initialized"
     else printWarning "GitHub integration failed to connect")
    (fun error => printWarning ("GitHub integration error: " ++ message error)).

(** [initializeMemoryManagement()], lines 172-180. *)
Definition initializeMemoryManagement : Async unit :=
  try_catch
    (loadMemory ;;
     printInfo "Memory management initialized")
    (fun error => printWarning ("Memory management error: " ++ message error)).

(** [loadConfiguration()], lines 185-200. *)
Definition loadConfiguration : Async unit :=
  try_catch
    (w <- getWorld ;;
     config <- match configFile w with
               | None => throw (SystemError "ENOENT: no such file or directory")
               | Some ConfigNotJson => throw (SyntaxError "Unexpected token in JSON")
               | Some (ConfigJson c) => ret c
               end ;;
     match config with
     | Some c =>
         update (fun a => set_port (or_else (truthy_number (cfg_port c)) (port a)) a) ;;
         update (fun a => set_logLevel (or_else (truthy_string (cfg_logLevel c)) (logLevel a)) a)
     | None => ret tt
     end ;;
     printInfo "Configuration loaded")
    (fun error => printWarning ("Configuration load error: " ++ message error)).

(** [initializeComponents()], lines 137-146. *)
Definition initializeComponents : Async unit :=
  initializeGitHubIntegration ;;
  initializeMemoryManagement ;;
  loadConfiguration.

Definition show_code (c : option nat) : string :=
  match c with
  | Some n => show_nat n
  | None => "null"
  end.

Definition show_signal (s : option Signal) : string :=
  match s with
  | Some SIGTERM => "SIGTERM"
  | Some SIGKILL => "SIGKILL"
  | None => "null"
  end.

(** The 'exit' listener installed by [startMainProcess()], lines 261-265. *)
Definition onProcessExit (code : option nat) (signal : option Signal) : Async unit :=
  printInfo ("Process exited with code " ++ show_code code ++ ", signal " ++ show_signal signal) ;;
  update (set_isRunning false) ;;
  emit (EvExited code signal).

(** Delivery of the child's 'exit' event: the handle is marked as exited and
    the listener above runs. *)
Definition childExit (code : option nat) (signal : option Signal) : Async unit :=
  update (fun a =>
    match process a with
    | Some p => set_process (Some {| pid := pid p; exited := true |}) a
    | None => a
    end) ;;
  onProcessExit code signal.

(** [startMainProcess()], lines 205-294.  When the spawn fails the 'error'
    listener rejects the promise; otherwise the one-second timer marks the
    agent as running, stamps [startTime] and saves the PID.
    Three things the source does are outside this definition: the
    one-second timer is not cancelled by the rejection and fires later, the
    listeners on the child's output print and log what the child writes,
    and [savePID()] is called without being awaited.  The statements about
    this method are about the branch in which the spawn succeeds and about
    what that branch leaves in the agent and the PID file. *)
Definition startMainProcess : Async unit :=
  a <- getThis ;;
  env <- ask ;;
  perform (Spawn (port a)) ;;
  match spawn_result env with
  | SpawnFails reason =>
      update (set_process (Some {| pid := None; exited := true |})) ;;
      printError ("Process error: " ++ reason) ;;
      throw (SystemError reason)
  | SpawnPid p =>
      update (set_process (Some {| pid := Some p; exited := false |})) ;;
      perform (Wait 1000) ;;
      update (set_isRunning true) ;;
      update (set_startTime (Some (now env))) ;;
      savePID
  end.

(** [this.process.kill(signal)]: never throws; the child's reaction is
    observed by [waitForProcessExit]. *)
Definition kill (p : ChildProcess) (s : Signal) : Async unit :=
  perform (Kill (pid p) s).

(** [waitForProcessExit(timeout = 5000)], lines 438-456.  A live child that
    honours SIGTERM closes its server and exits by itself, with code 0 and
    no signal, before the timer; otherwise the timer fires, SIGKILL is
    sent, and a child that was still alive exits on it. *)
Definition waitForProcessExit (timeout : Z) : Async unit :=
  a <- getThis ;;
  match process a with
  | None => ret tt
  | Some p =>
      env <- ask ;;
      if negb (exited p) && exits_on_SIGTERM env then
        childExit (Some 0%nat) None
      else
        perform (Wait timeout) ;;
        printWarning "Process exit timeout, forcing kill" ;;
        kill p SIGKILL ;;
        if exited p then ret tt else childExit None (Some SIGKILL)
  end.

(** The method [isRunning()] of the prototype, lines 461-471. *)
Definition isRunning_method : Async bool :=
  a <- getThis ;;
  match process a with
  | None => ret false
  | Some p =>
      env <- ask ;;
      match pid p with
      | Some _ => ret (signal0_alive env)
      | None => ret false
      end
  end.

(** ** Property lookup on the instance

    [this.isRunning] is resolved by the ordinary [[Get]]: an own property of
    the instance wins over the prototype.  The constructor creates the own
    data property [isRunning] (line 29) and every later assignment (lines 97,
    263, 285) stores a boolean in it. *)
Inductive PropertyValue :=
| DataBoolean (b : bool)
| Method (body : Async bool)
| Undefined.

Definition own_property (a : Agent) (name : string) : option PropertyValue :=
  if String.eqb name "isRunning" then Some (DataBoolean (isRunning a)) else None.

Definition prototype_property (name : string) : option PropertyValue :=
  if String.eqb name "isRunning" then Some (Method isRunning_method) else None.

Definition get_property (a : Agent) (name : string) : PropertyValue :=
  match own_property a name with
  | Some v => v
  | None => or_else (prototype_property name) Undefined
  end.

(** [this.<name>()]: calling anything but a function throws a TypeError. *)
Definition call_method (name : string) : Async bool :=
  a <- getThis ;;
  match get_property a name with
  | Method body => body
  | DataBoolean _ | Undefined => throw (TypeError ("this." ++ name ++ " is not a function"))
  end.

(** [start()], lines 48-75. *)
Definition start : Async bool :=
  try_catch
    (printInfo "Starting Cursor background agent..." ;;
     running <- call_method "isRunning" ;;
     if running : bool then
       printWarning "Background agent is already running" ;;
       ret true
     else
       initializeComponents ;;
       startMainProcess ;;
       startMonitoring ;;
       printSuccess "Cursor background agent started successfully" ;;
       emit EvStarted ;;
       ret true)
    (fun error =>
       printError ("Failed to start background agent: " ++ message error) ;;
       emit (EvError error) ;;
       ret false).

(** Removal of the PID file in [stop()], lines 90-95: [access] then [rm],
    any failure ignored. *)
Definition removePidFile : Async unit :=
  try_catch
    (w <- getWorld ;;
     env <- ask ;;
     match pidFile w with
     | None => throw (SystemError "ENOENT: no such file or directory")
     | Some _ =>
         match rm_error env with
         | None => updateWorld (set_pidFile None)
         | Some reason => throw (SystemError reason)
         end
     end)
    (fun _ => ret tt).

(** [stop()], lines 80-105. *)
Definition stop : Async bool :=
  try_catch
    (printInfo "Stopping Cursor background agent..." ;;
     a <- getThis ;;
     match process a with
     | Some p =>
         kill p SIGTERM ;;
         waitForProcessExit 5000
     | None => ret tt
     end ;;
     removePidFile ;;
     update (set_isRunning false) ;;
     printSuccess "Cursor background agent stopped" ;;
     emit EvStopped ;;
     ret true)
    (fun error =>
       printError ("Failed to stop background agent: " ++ message error) ;;
       ret false).

(** [restart()], lines 110-115. *)
Definition restart : Async bool :=
  printInfo "Restarting Cursor background agent..." ;;
  stop ;;
  perform (Wait 1000) ;;
  start.

(** [getStatus()], lines 120-132. *)
Record Status := {
  status_isRunning : bool;
  status_pid : option nat;
  status_port : Z;
  status_restartCount : nat;
  status_uptime : Z;
  status_githubConnected : bool;
  status_memoryEntries : nat
}.

Definition getStatus : Async Status :=
  a <- getThis ;;
  env <- ask ;;
  ret {| status_isRunning := isRunning a;
         status_pid := match process a with
                       | Some p => pid p
                       | None => None
                       end;
         status_port := port a;
         status_restartCount := restartCount a;
         status_uptime := match truthy_number (startTime a) with
                          | Some t => now env - t
                          | None => 0
                          end;
         status_githubConnected := githubConnected a;
         status_memoryEntries := JsMap.size (memoryStore a) |}.

(** The [for ... of this.memoryStore.entries()] loop of lines 372-376.  The
    iterator holds an index into the slot list; [n] counts the slots that
    remain to be visited, and deletions never change the number of slots. *)
Fixpoint evict_from (n idx : nat) (now maxAge : Z) (m : MemoryStore) : MemoryStore :=
  match n with
  | O => m
  | S n' =>
      match nth_error m idx with
      | None => m
      | Some None => evict_from n' (S idx) now maxAge m
      | Some (Some (key, entry)) =>
          evict_from n' (S idx) now maxAge
            (if now - timestamp entry >? maxAge then JsMap.delete m key else m)
      end
  end.

Definition evictOlderThan (now maxAge : Z) (m : MemoryStore) : MemoryStore :=
  evict_from (List.length m) 0 now maxAge m.

(** The test of line 373 and its effect on one slot. *)
Definition expired (now maxAge : Z) (entry : MemoryEntry) : bool :=
  now - timestamp entry >? maxAge.

Definition evict_slot (now maxAge : Z) (sl : JsMap.slot) : JsMap.slot :=
  match sl with
  | Some (key, entry) => if expired now maxAge entry then None else Some (key, entry)
  | None => None
  end.

(** [performMemoryCleanup()], lines 366-385. *)
Definition performMemoryCleanup : Async unit :=
  try_catch
    (env <- ask ;;
     let maxAge := 24 * 60 * 60 * 1000 in
     update (fun a => set_memoryStore (evictOlderThan (now env) maxAge (memoryStore a)) a) ;;
     saveMemory ;;
     log "Memory cleanup completed")
    (fun error => printError ("Memory cleanup failed: " ++ message error)).

(** The record handed to the swarm memory manager, lines 400-412. *)
Record SwarmRecord := {
  swarm_id : string;
  swarm_agentId : string;
  swarm_type : string;
  swarm_content : string;
  swarm_namespace : string;
  swarm_timestamp : Z
}.

(** [this.memoryManager]: no statement of the class assigns this property
    (the constructor, lines 17-43, sets up [memoryStore] only), so reading
    it yields undefined. *)
Definition memoryManager (a : Agent) : option (SwarmRecord -> Async unit) := None.

(** [performGitHubSync()], lines 390-418. *)
Definition performGitHubSync : Async unit :=
  try_catch
    (a <- getThis ;;
     match githubAPI a with
     | None => ret tt
     | Some _ =>
         if negb (githubConnected a) then ret tt
         else
           env <- ask ;;
           repos <- lift (github_listRepositories env) ;;
           if success repos then
             match memoryManager a with
             | None => throw (TypeError "Cannot read properties of undefined (reading 'store')")
             | Some store =>
                 store {| swarm_id := "github:repositories";
                          swarm_agentId := "cursor-background-agent";
                          swarm_type := "github-sync";
                          swarm_content := data repos;
                          swarm_namespace := "swarm-coordination";
                          swarm_timestamp := now env |}
             end ;;
             log "GitHub sync completed for swarm coordination"
           else ret tt
     end)
    (fun error => printError ("GitHub sync failed: " ++ message error)).

(** [handleProcessFailure()], lines 423-433. *)
Definition handleProcessFailure : Async unit :=
  update (fun a => set_restartCount (S (restartCount a)) a) ;;
  a <- getThis ;;
  if (restartCount a <=? maxRestarts a)%nat then
    printWarning ("Process failed, restarting (" ++ show_nat (restartCount a) ++ "/"
                  ++ show_nat (maxRestarts a) ++ ")...") ;;
    restart ;;
    ret tt
  else
    printError "Max restart attempts exceeded, giving up" ;;
    emit EvFailed.

(** The test of line 337: [!this.isRunning || !this.process]. *)
Definition detects_failure (a : Agent) : bool :=
  negb (isRunning a) || match process a with
                        | Some _ => false
                        | None => true
                        end.

(** [performHealthCheck()], lines 334-361. *)
Definition performHealthCheck : Async unit :=
  try_catch
    (a <- getThis ;;
     if detects_failure a then
       printWarning "Background agent process not running" ;;
       handleProcessFailure
     else
       env <- ask ;;
       (if heapUsed env >? 100 * 1024 * 1024 then
          printWarning "High memory usage detected" ;;
          performMemoryCleanup
        else ret tt) ;;
       a' <- getThis ;;
       (match githubAPI a' with
        | Some _ =>
            if negb (githubConnected a') then
              printWarning "GitHub connection lost, attempting to reconnect..." ;;
              initializeGitHubIntegration
            else ret tt
        | None => ret tt
        end) ;;
       log "Health check passed")
    (fun error =>
       printError ("Health check failed: " ++ message error) ;;
       log ("ERROR: Health check failed - " ++ message error)).

(** [cleanup()], lines 551-555. *)
Definition cleanup : Async unit :=
  stopMonitoring ;;
  saveMemory ;;
  stop ;;
  ret tt.

(* ===================================================================== *)
(** * Runs of the supervisor *)
(* ===================================================================== *)

(** What can happen to an agent: the host's calls, the three periodic
    callbacks, and the exit of the child process. *)
Inductive Operation :=
| CallStart
| CallStop
| CallRestart
| CallGetStatus
| CallCleanup
| TickHealthCheck
| TickMemoryCleanup
| TickGitHubSync
| ChildExits (code : option nat) (signal : option Signal).

Definition exec {A} (m : Async A) (env : Env) (s : Machine) : Machine := snd (m env s).

Definition result {A} (m : Async A) (env : Env) (s : Machine) : outcome A := fst (m env s).

Definition step (env : Env) (o : Operation) (s : Machine) : Machine :=
  match o with
  | CallStart => exec start env s
  | CallStop => exec stop env s
  | CallRestart => exec restart env s
  | CallGetStatus => exec getStatus env s
  | CallCleanup => exec cleanup env s
  | TickHealthCheck => exec performHealthCheck env s
  | TickMemoryCleanup => exec performMemoryCleanup env s
  | TickGitHubSync => exec performGitHubSync env s
  | ChildExits code signal => exec (childExit code signal) env s
  end.

Fixpoint run (ops : list (Env * Operation)) (s : Machine) : Machine :=
  match ops with
  | [] => s
  | (env, o) :: ops' => run ops' (step env o s)
  end.

(** A freshly constructed agent in a given world. *)
Definition boot (cwd : string) (options : Options) (w : World) : Machine :=
  {| this := constructor cwd options; world := w; effects := [] |}.

(** A periodic task can fire only while one of its timers is armed. *)
Definition armed (s : Machine) (task : Task) : bool :=
  existsb (fun t => Task_eqb (snd t) task) (timers (world s)).

(** Every armed timer is the one recorded in the agent's field for its
    task, as [startMonitoring] leaves them. *)
Definition handle_of (a : Agent) (task : Task) : option nat :=
  match task with
  | HealthCheck => healthCheckInterval a
  | MemoryCleanup => memoryCleanupInterval a
  | GitHubSync => githubSyncInterval a
  end.

Definition timers_tracked (s : Machine) : Prop :=
  forall id task, In (id, task) (timers (world s)) -> handle_of (this s) task = Some id.

(** Number of child processes spawned so far. *)
Definition spawns (l : list Effect) : nat :=
  List.length (filter (fun e => match e with Spawn _ => true | _ => false end) l).

(** Number of failure detections a run makes: health-check ticks that find
    [detects_failure] true when they start. *)
Fixpoint detections (ops : list (Env * Operation)) (s : Machine) : nat :=
  match ops with
  | [] => O
  | (env, o) :: ops' =>
      ((match o with
        | TickHealthCheck => if detects_failure (this s) then 1 else 0
        | _ => 0
        end) + detections ops' (step env o s))%nat
  end.

(** ** Relations between the machine before and after a call *)

(** [keeps R m]: whatever the environment answers and whether [m] returns
    or throws, the machine it leaves is [R]-related to the one it found. *)
Definition keeps {A} (R : Machine -> Machine -> Prop) (m : Async A) : Prop :=
  forall env s, R s (exec m env s).

(** [m] completes normally in every environment and state. *)
Definition never_throws {A} (m : Async A) : Prop :=
  forall env s, exists x, result m env s = Returned x.

Definition same_counter (s s' : Machine) : Prop :=
  restartCount (this s') = restartCount (this s) /\
  maxRestarts (this s') = maxRestarts (this s).

Definition same_agent (s s' : Machine) : Prop := this s' = this s.

(** The agent has no child process and is not marked as running. *)
Definition down (s : Machine) : Prop :=
  isRunning (this s) = false /\ process (this s) = None.

Definition stays_down (s s' : Machine) : Prop := down s -> down s'.

(** No timer is armed that was not armed before, and the handles kept in
    the agent are untouched. *)
Definition timers_shrunk (s s' : Machine) : Prop :=
  (forall t, In t (timers (world s')) -> In t (timers (world s))) /\
  healthCheckInterval (this s') = healthCheckInterval (this s) /\
  memoryCleanupInterval (this s') = memoryCleanupInterval (this s) /\
  githubSyncInterval (this s') = githubSyncInterval (this s).

(** Timers and the handles kept in the agent are untouched. *)
Definition same_timers (s s' : Machine) : Prop :=
  timers (world s') = timers (world s) /\
  healthCheckInterval (this s') = healthCheckInterval (this s) /\
  memoryCleanupInterval (this s') = memoryCleanupInterval (this s) /\
  githubSyncInterval (this s') = githubSyncInterval (this s).

(** Pre- and postconditions on the machine. *)
Definition hoare {A} (P : Machine -> Prop) (m : Async A) (Q : Machine -> Prop) : Prop :=
  forall env s, P s -> Q (exec m env s).

(** [m] returns [x] in every environment and state. *)
Definition returns {A} (x : A) (m : Async A) : Prop :=
  forall env s, result m env s = Returned x.

Definition stopped (s : Machine) : Prop := isRunning (this s) = false.

Definition no_timers (s : Machine) : Prop := timers (world s) = [].

Definition default_options : Options :=
  {| opt_workspace := None; opt_port := None; opt_logLevel := None; opt_autoStart := None |}.

(** What a health check amounts to once the ceiling is passed: it warns,
    counts the failure, reports and emits 'failed'.  Neither [restart],
    [stop], [start] nor [spawn] occurs in it. *)
Definition abandon_recovery : Async unit :=
  printWarning "Background agent process not running" ;;
  update (fun a => set_restartCount (S (restartCount a)) a) ;;
  printError "Max restart attempts exceeded, giving up" ;;
  emit EvFailed.

(** The interval handles the agent holds, in the order [stopMonitoring]
    clears them. *)
Definition handles (a : Agent) : list nat :=
  (match healthCheckInterval a with Some id => [id] | None => [] end ++
   match memoryCleanupInterval a with Some id => [id] | None => [] end ++
   match githubSyncInterval a with Some id => [id] | None => [] end)%list.

(** ** Concrete worlds and environments used in examples *)

Definition empty_world : World :=
  {| pidFile := None; logFile := []; configFile := None; memoryFile := None;
     timers := []; nextTimer := 0 |}.

(** An environment in which everything outside the agent works: the spawn
    succeeds, the child honours SIGTERM, files are writable and GitHub
    answers with a successful page. *)
Definition friendly_env (t : Z) : Env :=
  {| now := t;
     heapUsed := 50 * 1024 * 1024;
     spawn_result := SpawnPid 4242;
     exits_on_SIGTERM := true;
     signal0_alive := true;
     write_error := fun _ => None;
     rm_error := None;
     github_module := true;
     github_authenticate := Returned true;
     github_listRepositories := Returned {| success := true; data := "[{},{}]" |} |}.

(** An agent whose GitHub client is set up and connected, as
    [initializeGitHubIntegration] leaves it after a successful
    authentication. *)
Definition connected_machine : Machine :=
  {| this := set_githubConnected true
               (set_githubAPI (Some GitHubClient) (constructor "/workspace" default_options));
     world := empty_world;
     effects := [] |}.

(** A store with a deleted slot, an array-index key and three live
    entries written at 0 ms, 90 000 000 ms and 100 000 000 ms. *)
Definition sample_store : MemoryStore :=
  [Some ("session", {| payload := "alpha"; timestamp := 0 |});
   None;
   Some ("notes", {| payload := "beta"; timestamp := 90000000 |});
   Some ("7", {| payload := "gamma"; timestamp := 100000000 |})].

Definition sample_machine : Machine :=
  {| this := set_memoryStore sample_store (constructor "/workspace" default_options);
     world := empty_world;
     effects := [] |}.

Definition ticks (n : nat) (t : Z) : list (Env * Operation) :=
  repeat (friendly_env t, TickHealthCheck) n.

(* ===================================================================== *)
(** * Command-line flags *)
(* ===================================================================== *)

(** A flag is either followed by its text or stands alone ([true]). *)
Inductive FlagValue :=
| FlagText (text : string)
| FlagTrue.

(** [s.startsWith('--')]. *)
Definition startsWithDashes (s : string) : bool := String.prefix "--" s.

(** [s.substring(n)]. *)
Fixpoint substring_from (n : nat) (s : string) : string :=
  match n, s with
  | O, _ => s
  | S n', String _ s' => substring_from n' s'
  | S _, EmptyString => EmptyString
  end.

Definition nonempty (s : string) : bool :=
  match s with
  | EmptyString => false
  | String _ _ => true
  end.

(** [flags[name] = value] on the object literal [{}]: an own data property
    is created or overwritten, except for the name [__proto__], which
    reaches the accessor of [Object.prototype]; its setter ignores strings
    and booleans. *)
Definition assign_flag (flags : JsObject.t FlagValue) (name : string) (v : FlagValue)
  : JsObject.t FlagValue :=
  if String.eqb name "__proto__" then flags else JsObject.define flags name v.

(** The flag loop of lines 619-632.  A flag takes the next argument as its
    value when that argument is a non-empty string that is not itself a
    flag, and then skips it. *)
Fixpoint parseFlags (args : list string) (flags : JsObject.t FlagValue)
  : JsObject.t FlagValue :=
  match args with
  | [] => flags
  | arg :: rest =>
      if startsWithDashes arg then
        let flagName := substring_from 2 arg in
        match rest with
        | nextArg :: rest' =>
            if nonempty nextArg && negb (startsWithDashes nextArg) then
              parseFlags rest' (assign_flag flags flagName (FlagText nextArg))
            else
              parseFlags rest (assign_flag flags flagName FlagTrue)
        | [] => assign_flag flags flagName FlagTrue
        end
      else parseFlags rest flags
  end.

(** The names of the flags on a command line. *)
Definition flag_names (args : list string) : list string :=
  map (substring_from 2) (filter startsWithDashes args).

(* ===================================================================== *)
(** * Further notions used in the statements *)
(* ===================================================================== *)

(** The value of the last pair with a given key. *)
Fixpoint assoc_last {V} (l : list (string * V)) (k : string) : option V :=
  match l with
  | [] => None
  | (k', v) :: l' =>
      match assoc_last l' k with
      | Some v' => Some v'
      | None => if String.eqb k' k then Some v else None
      end
  end.

(** Timer identifiers handed out so far are below the next one. *)
Definition ids_fresh (s : Machine) : Prop :=
  forall id task, In (id, task) (timers (world s)) -> (id < nextTimer (world s))%nat.

(** The log file after is the log file before with lines appended. *)
Definition log_extended (s s' : Machine) : Prop :=
  exists l, logFile (world s') = (logFile (world s) ++ l)%list.

(** Number of SIGKILL signals sent so far. *)
Definition forced_kills (l : list Effect) : nat :=
  List.length (filter (fun e => match e with Kill _ SIGKILL => true | _ => false end) l).

(** No child has been spawned and none has been signalled in between. *)
Definition same_spawns (s s' : Machine) : Prop :=
  spawns (effects s') = spawns (effects s).

(** Number of [restart()] calls begun so far.  Each one opens with its
    announcement (line 111), a console line that no other statement of the
    class prints. *)
Definition restart_announcement (e : Effect) : bool :=
  match e with
  | Console LInfo text => String.eqb text "Restarting Cursor background agent..."
  | _ => false
  end.

Definition restarts (l : list Effect) : nat :=
  List.length (filter restart_announcement l).

(** No [restart()] has begun in between. *)
Definition same_restarts (s s' : Machine) : Prop :=
  restarts (effects s') = restarts (effects s).

(** A connected flag is backed by a client object. *)
Definition connected_has_client (a : Agent) : Prop :=
  githubConnected a = true -> githubAPI a <> None.

(** Everything except the two GitHub fields of the agent is unchanged, and
    so is the world. *)
Definition same_but_github (s s' : Machine) : Prop :=
  world s' = world s /\
  set_githubConnected (githubConnected (this s))
    (set_githubAPI (githubAPI (this s)) (this s')) = this s.

(** The fields that describe the lifecycle: process, running flag, restart
    counter, start time, interval handles, and the armed timers. *)
Definition same_lifecycle (s s' : Machine) : Prop :=
  process (this s') = process (this s) /\
  isRunning (this s') = isRunning (this s) /\
  restartCount (this s') = restartCount (this s) /\
  startTime (this s') = startTime (this s) /\
  same_timers s s' /\
  spawns (effects s') = spawns (effects s).

(** The snapshot file is untouched. *)
Definition same_snapshot (s s' : Machine) : Prop :=
  memoryFile (world s') = memoryFile (world s).

(** The memory store is untouched. *)
Definition same_store (s s' : Machine) : Prop :=
  memoryStore (this s') = memoryStore (this s).

(** No SIGKILL has been sent and the process handle is untouched. *)
Definition same_forced (s s' : Machine) : Prop :=
  forced_kills (effects s') = forced_kills (effects s) /\
  process (this s') = process (this s).

(** The PID marker file is untouched. *)
Definition same_pid (s s' : Machine) : Prop :=
  pidFile (world s') = pidFile (world s).

(** The two GitHub fields of the agent are untouched. *)
Definition same_github (s s' : Machine) : Prop :=
  githubAPI (this s') = githubAPI (this s) /\
  githubConnected (this s') = githubConnected (this s).

Definition has_client (a : Agent) : bool :=
  match githubAPI a with
  | Some _ => true
  | None => false
  end.

Definition authenticates (env : Env) : bool :=
  github_module env && match github_authenticate env with
                       | Returned b => b
                       | Thrown _ => false
                       end.

(** The machine [startMonitoring] leaves. *)
Definition monitored (s : Machine) : Machine :=
  let n := nextTimer (world s) in
  {| this := set_intervals (Some n) (Some (S n)) (Some (S (S n))) (this s);
     world := set_timers (timers (world s) ++
                          [(n, HealthCheck); (S n, MemoryCleanup); (S (S n), GitHubSync)])
                         (S (S (S n))) (world s);
     effects := effects s ++
                [SetInterval HealthCheck 30000 n;
                 SetInterval MemoryCleanup 300000 (S n);
                 SetInterval GitHubSync 600000 (S (S n))] |}.

(** The state of the store after one slot-by-slot eviction pass. *)
Definition evicted (t_now : Z) (m : MemoryStore) : MemoryStore :=
  map (evict_slot t_now (24 * 60 * 60 * 1000)) m.

(* ===================================================================== *)
(** * Facts about the monad *)
(* ===================================================================== *)

Section FrameRules.
Context (R : Machine -> Machine -> Prop) `{!PreOrder R}.

Lemma keeps_ret {A} (x : A) : keeps R (ret x).
Proof. intros env s. unfold exec; simpl. reflexivity. Qed.

Lemma keeps_throw {A} (e : JsError) : keeps R (@throw A e).
Proof. intros env s. unfold exec; simpl. reflexivity. Qed.

Lemma keeps_ask : keeps R ask.
Proof. intros env s. unfold exec; simpl. reflexivity. Qed.

Lemma keeps_getThis : keeps R getThis.
Proof. intros env s. unfold exec; simpl. reflexivity. Qed.

Lemma keeps_getWorld : keeps R getWorld.
Proof. intros env s. unfold exec; simpl. reflexivity. Qed.

Lemma keeps_lift {A} (r : outcome A) : keeps R (lift r).
Proof. destruct r; [apply keeps_ret | apply keeps_throw]. Qed.

Lemma keeps_bind {A B} (m : Async A) (k : A -> Async B) :
  keeps R m -> (forall x, keeps R (k x)) -> keeps R (bind m k).
Proof.
  intros Hm Hk env s. specialize (Hm env s).
  unfold exec, bind in *. destruct (m env s) as [[x|e] s1]; simpl in *.
  - etransitivity; [exact Hm | apply (Hk x env s1)].
  - exact Hm.
Qed.

Lemma keeps_try_catch {A} (m : Async A) (h : JsError -> Async A) :
  keeps R m -> (forall e, keeps R (h e)) -> keeps R (try_catch m h).
Proof.
  intros Hm Hh env s. specialize (Hm env s).
  unfold exec, try_catch in *. destruct (m env s) as [[x|e] s1]; simpl in *.
  - exact Hm.
  - etransitivity; [exact Hm | apply (Hh e env s1)].
Qed.
End FrameRules.

Lemma never_throws_ret {A} (x : A) : never_throws (ret x).
Proof. intros env s. exists x. reflexivity. Qed.

Lemma never_throws_bind {A B} (m : Async A) (k : A -> Async B) :
  never_throws m -> (forall x, never_throws (k x)) -> never_throws (bind m k).
Proof.
  intros Hm Hk env s. destruct (Hm env s) as [x Hx].
  unfold result, bind in *. destruct (m env s) as [r s1]; simpl in Hx; subst r.
  apply (Hk x env s1).
Qed.

Lemma never_throws_try_catch {A} (m : Async A) (h : JsError -> Async A) :
  (forall e, never_throws (h e)) -> never_throws (try_catch m h).
Proof.
  intros Hh env s. unfold result, try_catch.
  destruct (m env s) as [[x|e] s1]; simpl.
  - exists x. reflexivity.
  - apply (Hh e env s1).
Qed.

Lemma exec_bind {A B} (m : Async A) (k : A -> Async B) env s x :
  result m env s = Returned x ->
  exec (bind m k) env s = exec (k x) env (exec m env s).
Proof.
  unfold result, exec, bind. destruct (m env s) as [r s1]; simpl.
  intros ->. reflexivity.
Qed.

Lemma exec_step {A B} (m : Async A) (k : A -> Async B) env s x s1 :
  m env s = (Returned x, s1) ->
  exec (bind m k) env s = exec (k x) env s1.
Proof. unfold exec, bind. intros ->. reflexivity. Qed.

Lemma result_step {A B} (m : Async A) (k : A -> Async B) env s x s1 :
  m env s = (Returned x, s1) ->
  result (bind m k) env s = result (k x) env s1.
Proof. unfold result, bind. intros ->. reflexivity. Qed.

Lemma result_bind {A B} (m : Async A) (k : A -> Async B) env s x :
  result m env s = Returned x ->
  result (bind m k) env s = result (k x) env (exec m env s).
Proof.
  unfold result, exec, bind. destruct (m env s) as [r s1]; simpl.
  intros ->. reflexivity.
Qed.

#[local] Instance same_counter_preorder : PreOrder same_counter.
Proof.
  split.
  - intros s. split; reflexivity.
  - intros s1 s2 s3 [H1 H2] [H3 H4]. split; congruence.
Qed.

#[local] Instance same_agent_preorder : PreOrder same_agent.
Proof.
  split.
  - intros s. reflexivity.
  - intros s1 s2 s3 H1 H2. unfold same_agent in *. congruence.
Qed.

#[local] Instance stays_down_preorder : PreOrder stays_down.
Proof.
  split.
  - intros s H. exact H.
  - intros s1 s2 s3 H1 H2 H. apply H2, H1, H.
Qed.

#[local] Instance timers_shrunk_preorder : PreOrder timers_shrunk.
Proof.
  split.
  - intros s. repeat split. auto.
  - intros s1 s2 s3 (A1 & A2 & A3 & A4) (B1 & B2 & B3 & B4).
    repeat split; try congruence. auto.
Qed.

#[local] Instance same_timers_preorder : PreOrder same_timers.
Proof.
  split.
  - intros s. repeat split.
  - intros s1 s2 s3 (A1 & A2 & A3 & A4) (B1 & B2 & B3 & B4).
    repeat split; congruence.
Qed.

(** Primitive steps: the relation is checked on the updated record. *)
Ltac frame_prim :=
  let env := fresh "env" in
  let s := fresh "s" in
  intros env s;
  unfold exec, update, updateWorld, perform, same_counter, same_agent, same_timers;
  simpl;
  repeat match goal with
         | |- context [match ?x with _ => _ end] => destruct x; simpl
         end;
  repeat split; auto; try discriminate.

Ltac head_of t :=
  lazymatch t with
  | ?f _ => head_of f
  | _ => t
  end.

(** Structural decomposition of a method body; [prim] closes the
    primitive steps. *)
Ltac frame_with prim :=
  repeat first
    [ solve [auto with frame]
    | apply keeps_ret; typeclasses eauto
    | apply keeps_throw; typeclasses eauto
    | apply keeps_ask; typeclasses eauto
    | apply keeps_getThis; typeclasses eauto
    | apply keeps_getWorld; typeclasses eauto
    | apply keeps_lift; typeclasses eauto
    | apply keeps_bind; [ typeclasses eauto | | intro ]
    | apply keeps_try_catch; [ typeclasses eauto | | intro ]
    | match goal with
      | |- keeps _ (match ?x with _ => _ end) => destruct x
      | |- keeps _ ?m => let h := head_of m in progress unfold h
      end
    | solve [prim] ].

Ltac frame := frame_with frame_prim.

(** Primitive steps for [stays_down]. *)
Ltac down_prim :=
  let env := fresh "env" in
  let s := fresh "s" in
  let H1 := fresh "H" in
  let H2 := fresh "H" in
  intros env s [H1 H2];
  unfold exec, update, updateWorld, perform, down;
  cbn [snd this isRunning process set_isRunning set_process set_restartCount
       set_memoryStore];
  rewrite ?H2; cbn [isRunning process set_isRunning];
  split; auto.

(** Primitive steps for [timers_shrunk]. *)
Ltac shrunk_prim :=
  let env := fresh "env" in
  let s := fresh "s" in
  intros env s;
  unfold exec, update, updateWorld, perform, timers_shrunk, cancel;
  simpl;
  repeat match goal with
         | |- context [match ?x with _ => _ end] => destruct x; simpl
         end;
  repeat split; auto;
  let t := fresh "t" in
  let H := fresh "H" in
  intros t H; apply filter_In in H; tauto.

Create HintDb frame.

Lemma start_keeps_counter : keeps same_counter start.
Proof. frame. Qed.

#[local] Hint Resolve start_keeps_counter : frame.

Lemma stop_keeps_counter : keeps same_counter stop.
Proof. frame. Qed.

#[local] Hint Resolve stop_keeps_counter : frame.

Lemma restart_keeps_counter : keeps same_counter restart.
Proof. frame. Qed.

#[local] Hint Resolve restart_keeps_counter : frame.

Lemma getStatus_keeps_agent : keeps same_agent getStatus.
Proof. frame. Qed.

Lemma emit_keeps_agent ev : keeps same_agent (emit ev).
Proof. frame. Qed.

#[local] Hint Resolve emit_keeps_agent : frame.

Lemma saveMemory_keeps_agent : keeps same_agent saveMemory.
Proof. frame. Qed.

Lemma performGitHubSync_keeps_agent : keeps same_agent performGitHubSync.
Proof. frame. Qed.

Lemma same_agent_counter {A} (m : Async A) : keeps same_agent m -> keeps same_counter m.
Proof. intros H env s. specialize (H env s). unfold same_agent in H. split; rewrite H; reflexivity. Qed.

Lemma emit_keeps_counter ev : keeps same_counter (emit ev).
Proof. apply same_agent_counter, emit_keeps_agent. Qed.

Lemma performMemoryCleanup_keeps_counter : keeps same_counter performMemoryCleanup.
Proof. frame. Qed.

Lemma initializeGitHubIntegration_keeps_counter : keeps same_counter initializeGitHubIntegration.
Proof. frame. Qed.

Lemma childExit_keeps_counter code signal : keeps same_counter (childExit code signal).
Proof. frame. Qed.

Lemma cleanup_keeps_counter : keeps same_counter cleanup.
Proof. frame. Qed.

#[local] Hint Resolve emit_keeps_counter performMemoryCleanup_keeps_counter
  initializeGitHubIntegration_keeps_counter : frame.

(** What follows a step cannot undo what the step established, as long as
    the continuation keeps the relation. *)
Lemma bind_after (R : Machine -> Machine -> Prop) `{!PreOrder R}
      {A B} (m : Async A) (k : A -> Async B) env s :
  (forall x, keeps R (k x)) -> R (exec m env s) (exec (bind m k) env s).
Proof.
  intros Hk. unfold exec, bind. destruct (m env s) as [[x|e] s1]; simpl.
  - apply (Hk x env s1).
  - reflexivity.
Qed.

Lemma try_catch_after (R : Machine -> Machine -> Prop) `{!PreOrder R}
      {A} (m : Async A) (h : JsError -> Async A) env s :
  (forall e, keeps R (h e)) -> R (exec m env s) (exec (try_catch m h) env s).
Proof.
  intros Hh. unfold exec, try_catch. destruct (m env s) as [[x|e] s1]; simpl.
  - reflexivity.
  - apply (Hh e env s1).
Qed.

(** Every call of [handleProcessFailure] adds one to the counter, on the
    restarting path as on the giving-up path. *)
Lemma handleProcessFailure_counter env s :
  restartCount (this (exec handleProcessFailure env s)) = S (restartCount (this s)) /\
  maxRestarts (this (exec handleProcessFailure env s)) = maxRestarts (this s).
Proof.
  unfold handleProcessFailure.
  match goal with
  | |- context [bind ?m ?k] =>
      assert (H : same_counter (exec m env s) (exec (bind m k) env s))
        by (apply bind_after; [typeclasses eauto | intro; frame])
  end.
  destruct H as [H1 H2]. rewrite H1, H2. split; reflexivity.
Qed.

Lemma performHealthCheck_counter env s :
  restartCount (this (exec performHealthCheck env s))
  = (restartCount (this s) + if detects_failure (this s) then 1 else 0)%nat /\
  maxRestarts (this (exec performHealthCheck env s)) = maxRestarts (this s).
Proof.
  unfold performHealthCheck.
  match goal with
  | |- context [try_catch ?m ?h] =>
      assert (H : same_counter (exec m env s) (exec (try_catch m h) env s))
        by (apply try_catch_after; [typeclasses eauto | intro; frame]);
      destruct H as [H1 H2]; rewrite H1, H2; clear H1 H2
  end.
  rewrite (exec_step getThis _ env s (this s) s) by reflexivity.
  destruct (detects_failure (this s)).
  - erewrite exec_step by reflexivity.
    match goal with
    | |- context [exec handleProcessFailure env ?s1] =>
        destruct (handleProcessFailure_counter env s1) as [H1 H2];
        rewrite H1, H2; simpl
    end.
    split; [lia | reflexivity].
  - match goal with
    | |- context [exec ?m env s] =>
        assert (H : keeps same_counter m) by frame;
        destruct (H env s) as [H1 H2]; rewrite H1, H2
    end.
    split; [lia | reflexivity].
Qed.

(** The counter after any single operation. *)
Lemma step_counter env o s :
  restartCount (this (step env o s))
  = (restartCount (this s)
     + match o with
       | TickHealthCheck => if detects_failure (this s) then 1 else 0
       | _ => 0
       end)%nat /\
  maxRestarts (this (step env o s)) = maxRestarts (this s).
Proof.
  assert (K : forall A (m : Async A), keeps same_counter m ->
              restartCount (this (exec m env s)) = (restartCount (this s) + 0)%nat /\
              maxRestarts (this (exec m env s)) = maxRestarts (this s)).
  { intros A m H. destruct (H env s) as [H1 H2]. rewrite H1, H2. split; [lia | reflexivity]. }
  destruct o; cbn [step]; try (apply K; solve [auto with frame]).
  - apply K, same_agent_counter, getStatus_keeps_agent.
  - apply K, cleanup_keeps_counter.
  - apply performHealthCheck_counter.
  - apply K, same_agent_counter, performGitHubSync_keeps_agent.
  - apply K, childExit_keeps_counter.
Qed.

Lemma run_counter ops : forall s,
  restartCount (this (run ops s)) = (restartCount (this s) + detections ops s)%nat /\
  maxRestarts (this (run ops s)) = maxRestarts (this s).
Proof.
  induction ops as [|[env o] ops IH]; intros s; simpl.
  - split; [lia | reflexivity].
  - destruct (IH (step env o s)) as [H1 H2].
    destruct (step_counter env o s) as [H3 H4].
    rewrite H1, H2, H3, H4. split; [lia | reflexivity].
Qed.

(* ===================================================================== *)
(** * Pre- and postconditions *)
(* ===================================================================== *)

Lemma hoare_frame {A} (R : Machine -> Machine -> Prop) (P Q : Machine -> Prop) (m : Async A) :
  keeps R m -> (forall s s', R s s' -> P s -> Q s') -> hoare P m Q.
Proof. intros Hm HR env s HP. exact (HR _ _ (Hm env s) HP). Qed.

Lemma hoare_bind_inv {A B} (P Q : Machine -> Prop) (m : Async A) (k : A -> Async B) :
  never_throws m -> hoare P m P -> (forall x, hoare P (k x) Q) -> hoare P (bind m k) Q.
Proof.
  intros Hn Hm Hk env s HP. destruct (Hn env s) as [x Hx].
  rewrite (exec_bind m k env s x Hx). apply Hk, Hm, HP.
Qed.

Lemma hoare_bind_end {A B} (P Q : Machine -> Prop) (m : Async A) (k : A -> Async B) :
  hoare P m Q -> (forall x, hoare Q (k x) Q) -> hoare P (bind m k) Q.
Proof.
  intros Hm Hk env s HP. specialize (Hm env s HP).
  unfold exec, bind in *. destruct (m env s) as [[x|e] s1]; simpl in *.
  - apply (Hk x env s1 Hm).
  - exact Hm.
Qed.

Lemma hoare_try_catch {A} (P Q : Machine -> Prop) (m : Async A) (h : JsError -> Async A) :
  hoare P m Q -> (forall e, hoare Q (h e) Q) -> hoare P (try_catch m h) Q.
Proof.
  intros Hm Hh env s HP. specialize (Hm env s HP).
  unfold exec, try_catch in *. destruct (m env s) as [[x|e] s1]; simpl in *.
  - exact Hm.
  - apply (Hh e env s1 Hm).
Qed.

Lemma returns_ret {A} (x : A) : returns x (ret x).
Proof. intros env s. reflexivity. Qed.

Lemma returns_bind {A B} (y : B) (m : Async A) (k : A -> Async B) :
  never_throws m -> (forall x, returns y (k x)) -> returns y (bind m k).
Proof.
  intros Hn Hk env s. destruct (Hn env s) as [x Hx].
  rewrite (result_bind m k env s x Hx). apply Hk.
Qed.

Lemma returns_try_catch {A} (x : A) (m : Async A) (h : JsError -> Async A) :
  returns x m -> returns x (try_catch m h).
Proof.
  intros Hm env s. specialize (Hm env s). unfold result, try_catch in *.
  destruct (m env s) as [r s1]; simpl in *. subst r. reflexivity.
Qed.

Ltac nothrow :=
  repeat first
    [ solve [auto with nothrow]
    | apply never_throws_ret
    | apply never_throws_bind; [ | intro ]
    | apply never_throws_try_catch; intro
    | match goal with
      | |- never_throws (match ?x with _ => _ end) => destruct x
      | |- never_throws ?m => let h := head_of m in progress unfold h
      end
    | solve [intros ? ?; eexists; reflexivity] ].

Create HintDb nothrow.

Lemma log_never_throws text : never_throws (log text).
Proof. nothrow. Qed.

#[local] Hint Resolve log_never_throws : nothrow.

Lemma stopMonitoring_never_throws : never_throws stopMonitoring.
Proof. nothrow. Qed.

#[local] Hint Resolve stopMonitoring_never_throws : nothrow.

Lemma emit_never_throws ev : never_throws (emit ev).
Proof. nothrow. Qed.

#[local] Hint Resolve emit_never_throws : nothrow.

Lemma waitForProcessExit_never_throws timeout : never_throws (waitForProcessExit timeout).
Proof. nothrow. Qed.

Lemma removePidFile_never_throws : never_throws removePidFile.
Proof. nothrow. Qed.

#[local] Hint Resolve waitForProcessExit_never_throws removePidFile_never_throws : nothrow.

Lemma saveMemory_never_throws : never_throws saveMemory.
Proof. nothrow. Qed.

(** [stop()] reports success in every state and environment. *)
Lemma stop_returns_true : returns true stop.
Proof.
  unfold stop. apply returns_try_catch.
  repeat (apply returns_bind; [solve [nothrow] | intro]).
  apply returns_ret.
Qed.

Lemma stop_never_throws : never_throws stop.
Proof. intros env s. exists true. apply stop_returns_true. Qed.

(** [start()] always takes the error path: the call [this.isRunning()]
    finds the boolean own property and throws before anything is set up. *)
Lemma start_run env s :
  start env s =
  (Returned false,
   {| this := this s;
      world := world (exec (log "ERROR: this.isRunning is not a function") env s);
      effects := effects s ++
        [Console LInfo "Starting Cursor background agent...";
         Console LError "Failed to start background agent: this.isRunning is not a function";
         Emit (EvError (TypeError "this.isRunning is not a function"))] |}).
Proof.
  unfold start, call_method, get_property, own_property, exec, printInfo,
    printError, emit, log.
  unfold try_catch, bind, perform, getThis, throw, ask, updateWorld, ret.
  simpl.
  destruct (write_error env LogFile); simpl; rewrite <- !app_assoc; reflexivity.
Qed.

Lemma start_returns_false : returns false start.
Proof. intros env s. unfold result. rewrite start_run. reflexivity. Qed.

Lemma start_keeps_agent : keeps same_agent start.
Proof. intros env s. unfold exec. rewrite start_run. reflexivity. Qed.

Lemma log_keeps_timers text : keeps same_timers (log text).
Proof. intros env s. unfold exec, log, bind, ask, updateWorld, ret; simpl.
  destruct (write_error env LogFile); repeat split. Qed.

Lemma start_keeps_timers : keeps same_timers start.
Proof.
  intros env s. unfold exec. rewrite start_run.
  destruct (log_keeps_timers "ERROR: this.isRunning is not a function" env s) as (H1 & _).
  repeat split. exact H1.
Qed.

Lemma spawns_app l1 l2 : spawns (l1 ++ l2) = (spawns l1 + spawns l2)%nat.
Proof. unfold spawns. rewrite filter_app, length_app. reflexivity. Qed.

Lemma hoare_true {A} (P : Machine -> Prop) (m : Async A) : hoare P m (fun _ => True).
Proof. intros env s _. exact I. Qed.

(** After [stop()] the running flag is false, whatever the state before. *)
Lemma stop_stopped : hoare (fun _ => True) stop stopped.
Proof.
  assert (K : forall A (m : Async A), keeps same_agent m -> hoare stopped m stopped).
  { intros A m H. apply (hoare_frame same_agent); [exact H|].
    unfold same_agent, stopped. intros s s' E. rewrite E. auto. }
  unfold stop. apply hoare_try_catch.
  - do 4 (apply hoare_bind_inv; [solve [nothrow] | apply hoare_true | intro]).
    apply hoare_bind_end.
    + intros env s _. reflexivity.
    + intros _. apply K. frame.
  - intros e. apply K. frame.
Qed.

Lemma nil_of_no_member {A} (l : list A) : (forall x, ~ In x l) -> l = [].
Proof.
  destruct l as [|x l]; [reflexivity|].
  intros H. exfalso. apply (H x). left. reflexivity.
Qed.

(** [stopMonitoring()] cancels every timer whose handle the agent holds. *)
Lemma stopMonitoring_cancels : hoare timers_tracked stopMonitoring no_timers.
Proof.
  intros env s H. unfold no_timers. apply nil_of_no_member. intros [id task] Hin.
  assert (Hsub : In (id, task) (timers (world s)) /\
                 handle_of (this s) task <> Some id).
  { revert Hin. unfold exec, stopMonitoring, clearInterval.
    unfold bind, getThis, perform, updateWorld, ret.
    simpl.
    destruct task; cbn [handle_of];
      destruct (healthCheckInterval (this s)) as [h|];
      destruct (memoryCleanupInterval (this s)) as [m|];
      destruct (githubSyncInterval (this s)) as [g|];
      simpl; rewrite ?filter_In; simpl; rewrite ?negb_true_iff, ?Nat.eqb_neq;
      intros Hin; split; try tauto; try discriminate; intros [= ->]; tauto. }
  destruct Hsub as [Hin' Hne]. apply Hne, H, Hin'.
Qed.

Lemma tracked_of_same_timers s s' : same_timers s s' -> timers_tracked s -> timers_tracked s'.
Proof.
  intros (H1 & H2 & H3 & H4) H id task Hin. rewrite H1 in Hin. specialize (H id task Hin).
  destruct task; simpl in *; congruence.
Qed.

Lemma no_timers_of_same_timers s s' : same_timers s s' -> no_timers s -> no_timers s'.
Proof. intros (H1 & _) H. unfold no_timers in *. congruence. Qed.

(** [stop()] leaves no timer armed when every armed timer is tracked. *)
Lemma stop_cancels_timers : hoare timers_tracked stop no_timers.
Proof.
  assert (K : forall A (m : Async A), keeps same_timers m ->
              hoare timers_tracked m timers_tracked).
  { intros A m H. apply (hoare_frame same_timers); [exact H|].
    apply tracked_of_same_timers. }
  assert (L : forall A (m : Async A), keeps same_timers m -> hoare no_timers m no_timers).
  { intros A m H. apply (hoare_frame same_timers); [exact H|].
    apply no_timers_of_same_timers. }
  unfold stop. apply hoare_try_catch.
  - do 6 (apply hoare_bind_inv; [solve [nothrow] | apply K; frame | intro]).
    apply hoare_bind_end.
    + unfold emit.
      do 2 (apply hoare_bind_inv; [solve [nothrow] | apply K; frame | intro]).
      apply stopMonitoring_cancels.
    + intros _. apply L. frame.
  - intros e. apply L. frame.
Qed.

(* ===================================================================== *)
(** * Restart policy *)
(* ===================================================================== *)

Lemma exec_try_catch_returned {A} (m : Async A) (h : JsError -> Async A) env s x :
  result m env s = Returned x -> exec (try_catch m h) env s = exec m env s.
Proof.
  unfold result, exec, try_catch. destruct (m env s) as [r s1]; simpl.
  intros ->. reflexivity.
Qed.

Lemma start_never_throws : never_throws start.
Proof. intros env s. exists false. apply start_returns_false. Qed.

#[local] Hint Resolve start_never_throws stop_never_throws : nothrow.
#[local] Hint Resolve start_keeps_agent : frame.

Lemma restart_never_throws : never_throws restart.
Proof. nothrow. Qed.

#[local] Hint Resolve restart_never_throws : nothrow.

Lemma handleProcessFailure_never_throws : never_throws handleProcessFailure.
Proof. nothrow. Qed.

(** A restart ends with the agent not running: [stop()] clears the flag and
    the [start()] that follows fails without touching the agent. *)
Lemma restart_stopped : hoare (fun _ => True) restart stopped.
Proof.
  assert (K : forall A (m : Async A), keeps same_agent m -> hoare stopped m stopped).
  { intros A m H. apply (hoare_frame same_agent); [exact H|].
    unfold same_agent, stopped. intros s s' E. rewrite E. auto. }
  unfold restart.
  apply hoare_bind_inv; [solve [nothrow] | apply hoare_true | intro].
  apply hoare_bind_end; [apply stop_stopped | intros _; apply K; frame].
Qed.

(** A health check that finds the agent down hands over to
    [handleProcessFailure] after its warning. *)
Lemma performHealthCheck_on_failure env s :
  detects_failure (this s) = true ->
  exec performHealthCheck env s =
  exec (printWarning "Background agent process not running" ;; handleProcessFailure) env s.
Proof.
  intros H. unfold performHealthCheck.
  assert (N : never_throws
                (printWarning "Background agent process not running" ;; handleProcessFailure)).
  { apply never_throws_bind; [nothrow | intro; apply handleProcessFailure_never_throws]. }
  destruct (N env s) as [[] Hx].
  erewrite exec_try_catch_returned.
  - erewrite exec_step by reflexivity. rewrite H. reflexivity.
  - erewrite result_step by reflexivity. rewrite H. exact Hx.
Qed.

(** Below the ceiling the failure is answered by a restart, after which the
    agent is not running and the counter is one higher. *)
Lemma performHealthCheck_restarts env s :
  detects_failure (this s) = true ->
  (restartCount (this s) < maxRestarts (this s))%nat ->
  stopped (exec performHealthCheck env s).
Proof.
  intros H Hlt. rewrite performHealthCheck_on_failure by exact H.
  unfold handleProcessFailure.
  do 3 (erewrite exec_step by reflexivity). cbn [this restartCount maxRestarts set_restartCount].
  replace (S (restartCount (this s)) <=? maxRestarts (this s))%nat with true
    by (symmetry; apply Nat.leb_le; lia).
  erewrite exec_step by reflexivity.
  match goal with
  | |- stopped (exec (bind restart ?k) env ?s1) =>
      apply (hoare_bind_end (fun _ => True) stopped restart k); [apply restart_stopped | | exact I]
  end.
  intros _ env' s' Hs. exact Hs.
Qed.

(** At or above the ceiling the health check is [abandon_recovery]. *)
Lemma performHealthCheck_gives_up env s :
  detects_failure (this s) = true ->
  (maxRestarts (this s) <= restartCount (this s))%nat ->
  exec performHealthCheck env s = exec abandon_recovery env s.
Proof.
  intros H Hle. rewrite performHealthCheck_on_failure by exact H.
  unfold abandon_recovery, handleProcessFailure.
  do 3 (erewrite exec_step by reflexivity). cbn [this restartCount maxRestarts set_restartCount].
  replace (S (restartCount (this s)) <=? maxRestarts (this s))%nat with false
    by (symmetry; apply Nat.leb_gt; lia).
  do 2 (erewrite exec_step by reflexivity). reflexivity.
Qed.

(** The exact machine [abandon_recovery] leaves. *)
Lemma abandon_recovery_run env s :
  this (exec abandon_recovery env s) = set_restartCount (S (restartCount (this s))) (this s) /\
  effects (exec abandon_recovery env s) =
    (effects s ++
     [Console LWarning "Background agent process not running";
      Console LError "Max restart attempts exceeded, giving up";
      Emit EvFailed] ++ map ClearInterval (handles (this s)))%list.
Proof.
  unfold abandon_recovery, emit, log, stopMonitoring, clearInterval, printWarning, printError, handles.
  unfold exec, bind, perform, update, updateWorld, getThis, ask, ret.
  simpl.
  destruct (write_error env LogFile);
    destruct (healthCheckInterval (this s)) eqn:Eh;
    destruct (memoryCleanupInterval (this s)) eqn:Em;
    destruct (githubSyncInterval (this s)) eqn:Eg;
    simpl; rewrite ?Eh; simpl; rewrite ?Em; simpl; rewrite ?Eg; simpl;
    rewrite <- ?app_assoc; simpl; split; reflexivity.
Qed.

Lemma spawns_clear l : spawns (map ClearInterval l) = O.
Proof. induction l as [|x l IH]; [reflexivity | exact IH]. Qed.

Lemma abandon_recovery_spawns env s : spawns (effects (exec abandon_recovery env s)) = spawns (effects s).
Proof.
  destruct (abandon_recovery_run env s) as [_ H]. rewrite H, !spawns_app, spawns_clear.
  simpl. lia.
Qed.

Lemma detects_failure_of_stopped s : stopped s -> detects_failure (this s) = true.
Proof. unfold stopped, detects_failure. intros ->. reflexivity. Qed.

(** [getStatus()] reads the agent's fields and changes nothing. *)
Lemma getStatus_reports env s :
  exists st,
    result getStatus env s = Returned st /\
    status_isRunning st = isRunning (this s) /\
    status_restartCount st = restartCount (this s) /\
    status_pid st = match process (this s) with
                    | Some p => pid p
                    | None => None
                    end /\
    status_memoryEntries st = JsMap.size (memoryStore (this s)).
Proof. eexists. split; [reflexivity|]. repeat split. Qed.

(** One failing health check below the ceiling: the agent is left stopped,
    so the next check fails as well, and the counter has moved by one. *)
Lemma failing_tick env s n :
  detects_failure (this s) = true ->
  restartCount (this s) = n ->
  (n < maxRestarts (this s))%nat ->
  let s' := step env TickHealthCheck s in
  detects_failure (this s') = true /\
  isRunning (this s') = false /\
  restartCount (this s') = S n /\
  maxRestarts (this s') = maxRestarts (this s).
Proof.
  intros H Hn Hlt s'. subst s'. cbn [step].
  assert (Hs : stopped (exec performHealthCheck env s))
    by (apply performHealthCheck_restarts; [exact H | lia]).
  destruct (performHealthCheck_counter env s) as [Hc Hm].
  rewrite H in Hc. cbv iota in Hc.
  repeat split.
  - apply detects_failure_of_stopped, Hs.
  - exact Hs.
  - lia.
  - exact Hm.
Qed.

(* ===================================================================== *)
(** * What any run can reach *)
(* ===================================================================== *)

Lemma same_agent_stays_down {A} (m : Async A) : keeps same_agent m -> keeps stays_down m.
Proof.
  intros H env s [H1 H2]. specialize (H env s). unfold same_agent in H.
  unfold down. rewrite H. split; assumption.
Qed.

Lemma start_stays_down : keeps stays_down start.
Proof. apply same_agent_stays_down, start_keeps_agent. Qed.

Lemma emit_stays_down ev : keeps stays_down (emit ev).
Proof. apply same_agent_stays_down, emit_keeps_agent. Qed.

#[local] Hint Resolve start_stays_down emit_stays_down : frame.

Lemma stop_stays_down : keeps stays_down stop.
Proof. frame_with down_prim. Qed.

#[local] Hint Resolve stop_stays_down : frame.

Lemma step_stays_down env o s : down s -> down (step env o s).
Proof.
  assert (K : forall A (m : Async A), keeps stays_down m -> down s -> down (exec m env s))
    by (intros A m H; apply H).
  destruct o; cbn [step]; apply K; frame_with down_prim.
Qed.

(** An agent that starts without a child never has one and is never marked
    as running, whatever is called on it. *)
Lemma run_stays_down ops : forall s, down s -> down (run ops s).
Proof.
  induction ops as [|[env o] ops IH]; intros s H; simpl; [exact H|].
  apply IH, step_stays_down, H.
Qed.

Lemma same_timers_shrunk {A} (m : Async A) : keeps same_timers m -> keeps timers_shrunk m.
Proof.
  intros H env s. destruct (H env s) as (H1 & H2 & H3 & H4).
  repeat split; try assumption. rewrite H1. auto.
Qed.

Lemma start_shrinks_timers : keeps timers_shrunk start.
Proof. apply same_timers_shrunk, start_keeps_timers. Qed.

#[local] Hint Resolve start_shrinks_timers : frame.

Lemma step_shrinks_timers env o s : timers_shrunk s (step env o s).
Proof.
  assert (K : forall A (m : Async A), keeps timers_shrunk m -> timers_shrunk s (exec m env s))
    by (intros A m H; apply H).
  destruct o; cbn [step]; apply K; frame_with shrunk_prim.
Qed.

Lemma tracked_of_shrunk s s' : timers_shrunk s s' -> timers_tracked s -> timers_tracked s'.
Proof.
  intros (H1 & H2 & H3 & H4) H id task Hin. specialize (H id task (H1 _ Hin)).
  destruct task; simpl in *; congruence.
Qed.

(** Tracking of the timers is an invariant of every run. *)
Lemma run_keeps_tracked ops : forall s, timers_tracked s -> timers_tracked (run ops s).
Proof.
  induction ops as [|[env o] ops IH]; intros s H; simpl; [exact H|].
  apply IH. apply (tracked_of_shrunk s); [|exact H].
  apply step_shrinks_timers.
Qed.

(** In particular it holds for every state a fresh agent can reach. *)
Lemma reachable_tracked cwd options w ops :
  timers w = [] -> timers_tracked (run ops (boot cwd options w)).
Proof.
  intros H. apply run_keeps_tracked. intros id task Hin.
  cbn [boot world] in Hin. rewrite H in Hin. contradiction.
Qed.

Lemma reachable_down cwd options w ops : down (run ops (boot cwd options w)).
Proof. apply run_stays_down. split; reflexivity. Qed.

(* ===================================================================== *)
(** * The claims about the lifecycle *)
(* ===================================================================== *)

(** C1.  The claim is that [start()], on a supervisor that is not running,
    spawns the child, arms the three periodic tasks, sets the running flag
    and returns true, and that on a running supervisor it warns and returns
    true.  The code does neither: in every state and environment [start()]
    returns false, leaves the agent object (process handle, running flag,
    interval handles) exactly as it was, arms no timer and spawns nothing. *)
Theorem start_always_fails : forall env s,
  result start env s = Returned false /\
  this (exec start env s) = this s /\
  timers (world (exec start env s)) = timers (world s) /\
  spawns (effects (exec start env s)) = spawns (effects s).
Proof.
  intros env s. split; [apply start_returns_false|].
  split; [apply start_keeps_agent|].
  split; [apply start_keeps_timers|].
  unfold exec. rewrite start_run. cbn [snd effects].
  rewrite spawns_app. apply Nat.add_0_r.
Qed.

(** C2, as stated, fails on a fresh agent: after six successive failing
    health checks [getStatus()] reports a restart count of 6, not 5. *)
Lemma six_failures_report_six_not_five :
  let s0 := boot "/workspace" default_options empty_world in
  let s6 := run (ticks 6 0) s0 in
  detections (ticks 6 0) s0 = 6%nat /\
  ~ (exists st, result getStatus (friendly_env 0) s6 = Returned st /\
                status_isRunning st = false /\
                status_restartCount st = 5%nat).
Proof.
  split.
  - vm_compute. reflexivity.
  - intros (st & H & _ & H5). vm_compute in H. injection H as <-. discriminate H5.
Qed.

(** C2, amended.  Starting from a restart count of 0 with the ceiling at 5,
    when six health checks in succession find the process down, the sixth
    one is [abandon_recovery]: it attempts no restart and no spawn, emits
    'failed', and [getStatus()] then reports running = false and
    restartCount = 6.
    A further failing check gives up again. *)
Theorem six_failures_reach_failed e1 e2 e3 e4 e5 e6 e7 s :
  restartCount (this s) = 0%nat ->
  maxRestarts (this s) = 5%nat ->
  detects_failure (this s) = true ->
  let five := [(e1, TickHealthCheck); (e2, TickHealthCheck); (e3, TickHealthCheck);
               (e4, TickHealthCheck); (e5, TickHealthCheck)] in
  let s5 := run five s in
  let s6 := step e6 TickHealthCheck s5 in
  detections (five ++ [(e6, TickHealthCheck)]) s = 6%nat /\
  s6 = exec abandon_recovery e6 s5 /\
  spawns (effects s6) = spawns (effects s5) /\
  In (Emit EvFailed) (effects s6) /\
  (exists st, result getStatus e7 s6 = Returned st /\
              status_isRunning st = false /\
              status_restartCount st = 6%nat) /\
  step e7 TickHealthCheck s6 = exec abandon_recovery e7 s6.
Proof.
  intros H0 Hmax Hd five s5 s6.
  destruct (failing_tick e1 s 0 Hd H0 ltac:(lia)) as (D1 & _ & C1 & M1).
  set (s1 := step e1 TickHealthCheck s) in *.
  destruct (failing_tick e2 s1 1 D1 C1 ltac:(lia)) as (D2 & _ & C2 & M2).
  set (s2 := step e2 TickHealthCheck s1) in *.
  destruct (failing_tick e3 s2 2 D2 C2 ltac:(lia)) as (D3 & _ & C3 & M3).
  set (s3 := step e3 TickHealthCheck s2) in *.
  destruct (failing_tick e4 s3 3 D3 C3 ltac:(lia)) as (D4 & _ & C4 & M4).
  set (s4 := step e4 TickHealthCheck s3) in *.
  destruct (failing_tick e5 s4 4 D4 C4 ltac:(lia)) as (D5 & R5 & C5 & M5).
  change (step e5 TickHealthCheck s4) with s5 in *.
  assert (G : s6 = exec abandon_recovery e6 s5).
  { subst s6. cbn [step]. apply performHealthCheck_gives_up; [exact D5 | lia]. }
  destruct (abandon_recovery_run e6 s5) as [Ht He]. rewrite <- G in Ht, He.
  assert (R6 : isRunning (this s6) = false) by (rewrite Ht; exact R5).
  assert (C6 : restartCount (this s6) = 6%nat)
    by (rewrite Ht; cbn [restartCount set_restartCount]; lia).
  assert (M6 : maxRestarts (this s6) = 5%nat)
    by (rewrite Ht; cbn [maxRestarts set_restartCount]; lia).
  refine (conj _ (conj G (conj _ (conj _ (conj _ _))))).
  - destruct (run_counter (five ++ [(e6, TickHealthCheck)]) s) as [Hc _].
    change (run (five ++ [(e6, TickHealthCheck)]) s) with s6 in Hc.
    rewrite C6, H0 in Hc. symmetry. exact Hc.
  - rewrite G. apply abandon_recovery_spawns.
  - rewrite He. apply in_or_app. right. right. right. left. reflexivity.
  - destruct (getStatus_reports e7 s6) as (st & Hr & Hi & Hc & _).
    exists st. rewrite Hi, Hc. exact (conj Hr (conj R6 C6)).
  - cbn [step]. apply performHealthCheck_gives_up.
    + apply detects_failure_of_stopped. exact R6.
    + rewrite M6, C6. apply Nat.le_succ_diag_r.
Qed.

(** The amended C2 at a fresh agent with default options. *)
Lemma six_failures_reach_failed_witness :
  let e := friendly_env 0 in
  let s := boot "/workspace" default_options empty_world in
  let five := [(e, TickHealthCheck); (e, TickHealthCheck); (e, TickHealthCheck);
               (e, TickHealthCheck); (e, TickHealthCheck)] in
  (restartCount (this s) = 0%nat /\
   maxRestarts (this s) = 5%nat /\
   detects_failure (this s) = true) /\
  step e TickHealthCheck (run five s) = exec abandon_recovery e (run five s).
Proof.
  intros e s five.
  exact (conj (conj eq_refl (conj eq_refl eq_refl))
           (proj1 (proj2 (six_failures_reach_failed e e e e e e e s eq_refl eq_refl eq_refl)))).
Defined.

(** C3.  The scenario of the claim, run on the code with the default
    configuration: [start()] returns false and [getStatus()] reports
    running = false (the claim says true) with no process id; the next
    health check counts one failure and its restart leaves the agent not
    running again (the claim says it recovers). *)
Theorem default_start_never_runs cwd w e1 e2 e3 e4 :
  let s0 := boot cwd default_options w in
  let s1 := step e1 CallStart s0 in
  let s2 := step e3 TickHealthCheck s1 in
  result start e1 s0 = Returned false /\
  (exists st, result getStatus e2 s1 = Returned st /\
              status_isRunning st = false /\
              status_pid st = None /\
              status_restartCount st = 0%nat) /\
  (exists st, result getStatus e4 s2 = Returned st /\
              status_isRunning st = false /\
              status_restartCount st = 1%nat) /\
  (forall ops, exists st, result getStatus e4 (run ops s1) = Returned st /\
                          status_isRunning st = false /\
                          status_pid st = None).
Proof.
  intros s0 s1 s2.
  pose proof (start_returns_false e1 s0) as R.
  pose proof (start_keeps_agent e1 s0) as T. unfold same_agent in T.
  change (exec start e1 s0) with s1 in T.
  refine (conj R (conj _ (conj _ _))).
  - destruct (getStatus_reports e2 s1) as (st & Hr & Hi & Hc & Hp & _).
    exists st. rewrite Hi, Hc, Hp, T. exact (conj Hr (conj eq_refl (conj eq_refl eq_refl))).
  - assert (D : detects_failure (this s1) = true) by (rewrite T; reflexivity).
    assert (C : restartCount (this s1) = 0%nat) by (rewrite T; reflexivity).
    assert (L : (0 < maxRestarts (this s1))%nat) by (rewrite T; apply Nat.lt_0_succ).
    destruct (failing_tick e3 s1 0 D C L) as (_ & R2 & C2 & _).
    destruct (getStatus_reports e4 s2) as (st & Hr & Hi & Hc & _).
    exists st. rewrite Hi, Hc. exact (conj Hr (conj R2 C2)).
  - intros ops.
    destruct (reachable_down cwd default_options w ((e1, CallStart) :: ops)) as [D1 D2].
    change (run ((e1, CallStart) :: ops) (boot cwd default_options w))
      with (run ops s1) in D1, D2.
    destruct (getStatus_reports e4 (run ops s1)) as (st & Hr & Hi & _ & Hp & _).
    exists st. rewrite Hi, Hp, D1, D2. exact (conj Hr (conj eq_refl eq_refl)).
Qed.

Lemma restarts_app l1 l2 : restarts (l1 ++ l2) = (restarts l1 + restarts l2)%nat.
Proof. unfold restarts. rewrite filter_app, length_app. reflexivity. Qed.

Lemma restarts_clear l : restarts (map ClearInterval l) = O.
Proof. induction l as [|x l IH]; [reflexivity | exact IH]. Qed.

#[local] Instance same_restarts_preorder : PreOrder same_restarts.
Proof.
  split.
  - intros s. reflexivity.
  - intros s1 s2 s3 H1 H2. unfold same_restarts in *. congruence.
Qed.

(** Primitive steps for [same_restarts]: the lines they print are not the
    announcement. *)
Ltac restarts_prim :=
  let env := fresh "env" in
  let s := fresh "s" in
  intros env s;
  unfold exec, update, updateWorld, perform, same_restarts, cancel;
  simpl;
  repeat match goal with
         | |- context [match ?x with _ => _ end] => destruct x; simpl
         end;
  rewrite ?restarts_app;
  try reflexivity; apply Nat.add_0_r.

Lemma start_keeps_restarts : keeps same_restarts start.
Proof.
  intros env s. unfold same_restarts, exec. rewrite start_run. cbn [snd effects].
  rewrite restarts_app. apply Nat.add_0_r.
Qed.

#[local] Hint Resolve start_keeps_restarts : frame.

Lemma stop_keeps_restarts : keeps same_restarts stop.
Proof. frame_with restarts_prim. Qed.

#[local] Hint Resolve stop_keeps_restarts : frame.

(** A call of [restart()] is one restart, whatever [stop()] and [start()]
    do inside it. *)
Lemma restart_restarts env s :
  restarts (effects (exec restart env s)) = S (restarts (effects s)).
Proof.
  unfold restart.
  erewrite exec_step by reflexivity.
  match goal with
  | |- context [exec ?m env ?s1] =>
      assert (K : keeps same_restarts m) by frame_with restarts_prim;
      pose proof (K env s1) as E
  end.
  unfold same_restarts in E. rewrite E. cbn [effects].
  rewrite restarts_app. cbn. apply Nat.add_1_r.
Qed.

(** A failing health check restarts while the counter is below the ceiling
    and only then; a healthy one never does. *)
Lemma performHealthCheck_restarts_count env s :
  restarts (effects (exec performHealthCheck env s))
  = (restarts (effects s)
     + if detects_failure (this s) && (restartCount (this s) <? maxRestarts (this s))%nat
       then 1 else 0)%nat.
Proof.
  destruct (detects_failure (this s)) eqn:D; cbn [andb].
  - destruct (restartCount (this s) <? maxRestarts (this s))%nat eqn:L.
    + apply Nat.ltb_lt in L.
      rewrite performHealthCheck_on_failure by exact D.
      unfold handleProcessFailure.
      do 3 (erewrite exec_step by reflexivity).
      cbn [this restartCount maxRestarts set_restartCount].
      replace (S (restartCount (this s)) <=? maxRestarts (this s))%nat with true
        by (symmetry; apply Nat.leb_le; lia).
      erewrite exec_step by reflexivity.
      match goal with
      | |- context [exec (bind restart ?k) env ?s1] =>
          assert (H : same_restarts (exec restart env s1) (exec (bind restart k) env s1))
            by (apply (bind_after same_restarts); intro; frame_with restarts_prim);
          unfold same_restarts in H; rewrite H; rewrite (restart_restarts env s1)
      end.
      cbn [effects]. rewrite !restarts_app. cbn. lia.
    + apply Nat.ltb_ge in L.
      rewrite performHealthCheck_gives_up by assumption.
      destruct (abandon_recovery_run env s) as [_ E]. rewrite E.
      rewrite !restarts_app, restarts_clear. cbn. lia.
  - unfold performHealthCheck.
    match goal with
    | |- context [try_catch ?m ?h] =>
        assert (H : same_restarts (exec m env s) (exec (try_catch m h) env s))
          by (apply (try_catch_after same_restarts); intro; frame_with restarts_prim);
        unfold same_restarts in H; rewrite H; clear H
    end.
    rewrite (exec_step getThis _ env s (this s) s) by reflexivity.
    rewrite D.
    match goal with
    | |- context [exec ?m env s] =>
        assert (H : keeps same_restarts m) by frame_with restarts_prim;
        pose proof (H env s) as E; unfold same_restarts in E; rewrite E
    end.
    apply eq_sym, Nat.add_0_r.
Qed.

(** The restarts begun by any single operation. *)
Lemma step_restarts env o s :
  restarts (effects (step env o s))
  = (restarts (effects s)
     + match o with
       | CallRestart => 1
       | TickHealthCheck =>
           if detects_failure (this s) && (restartCount (this s) <? maxRestarts (this s))%nat
           then 1 else 0
       | _ => 0
       end)%nat.
Proof.
  assert (K : forall A (m : Async A), keeps same_restarts m ->
              restarts (effects (exec m env s)) = (restarts (effects s) + 0)%nat).
  { intros A m H. pose proof (H env s) as E. unfold same_restarts in E.
    rewrite E. apply eq_sym, Nat.add_0_r. }
  destruct o; cbn [step];
    try (apply K; solve [frame_with restarts_prim]).
  - rewrite restart_restarts. apply eq_sym, Nat.add_1_r.
  - apply performHealthCheck_restarts_count.
Qed.

(** C4, as stated, fails at the ceiling.  After five failing health checks
    on a fresh agent the counter is 5 and five restarts have been made; the
    sixth failing check moves the counter to 6 and restarts nothing.  So
    the counter is not moved by health-triggered restarts alone. *)
Lemma failing_check_at_ceiling_counts_without_restart :
  let s5 := run (ticks 5 0) (boot "/workspace" default_options empty_world) in
  let s6 := step (friendly_env 0) TickHealthCheck s5 in
  restartCount (this s5) = 5%nat /\ restarts (effects s5) = 5%nat /\
  restartCount (this s6) = 6%nat /\ restarts (effects s6) = 5%nat /\
  ~ (forall env o s,
       restartCount (this (step env o s)) <> restartCount (this s) ->
       restarts (effects (step env o s)) = S (restarts (effects s))).
Proof.
  refine (conj _ (conj _ (conj _ (conj _ _)))).
  - vm_compute. reflexivity.
  - vm_compute. reflexivity.
  - vm_compute. reflexivity.
  - vm_compute. reflexivity.
  - intros H.
    specialize (H (friendly_env 0) TickHealthCheck
                  (run (ticks 5 0) (boot "/workspace" default_options empty_world))).
    vm_compute in H.
    assert (E : 5%nat = 6%nat) by (apply H; discriminate).
    discriminate E.
Qed.

(** C4, amended.  An explicit [restart()] leaves the restart counter and
    the ceiling unchanged.  For every operation, the counter moves by one
    exactly when the operation is a health check that finds the process
    down, and by nothing otherwise.  Such a check makes a restart only
    while the counter is below the ceiling: from the ceiling on it still
    counts, but restarts nothing.  An explicit restart is a restart that
    does not count. *)
Theorem restart_counter_frame env s :
  restartCount (this (exec restart env s)) = restartCount (this s) /\
  maxRestarts (this (exec restart env s)) = maxRestarts (this s) /\
  forall o,
    restartCount (this (step env o s))
    = (restartCount (this s)
       + match o with
         | TickHealthCheck => if detects_failure (this s) then 1 else 0
         | _ => 0
         end)%nat /\
    restarts (effects (step env o s))
    = (restarts (effects s)
       + match o with
         | CallRestart => 1
         | TickHealthCheck =>
             if detects_failure (this s) && (restartCount (this s) <? maxRestarts (this s))%nat
             then 1 else 0
         | _ => 0
         end)%nat.
Proof.
  destruct (restart_keeps_counter env s) as [H1 H2].
  refine (conj H1 (conj H2 _)).
  intros o. split.
  - apply step_counter.
  - apply step_restarts.
Qed.

(** C8.  [stop()] twice in a row: both calls return true without error and
    the running flag is false after each, whatever the state before the
    first call and whatever the environment answers. *)
Theorem stop_idempotent env1 env2 s :
  let s1 := exec stop env1 s in
  let s2 := exec stop env2 s1 in
  result stop env1 s = Returned true /\
  isRunning (this s1) = false /\
  result stop env2 s1 = Returned true /\
  isRunning (this s2) = false.
Proof.
  intros s1 s2. repeat split.
  - apply stop_returns_true.
  - apply (stop_stopped env1 s I).
  - apply stop_returns_true.
  - apply (stop_stopped env2 s1 I).
Qed.

(** C9.  When [stop()] returns, it has returned true and no periodic task
    is armed any more, provided the armed timers are the ones held in the
    agent's three interval fields. *)
Theorem stop_cancels_all_tasks env s :
  timers_tracked s ->
  result stop env s = Returned true /\
  timers (world (exec stop env s)) = [] /\
  forall task, armed (exec stop env s) task = false.
Proof.
  intros H. pose proof (stop_cancels_timers env s H) as N. unfold no_timers in N.
  repeat split.
  - apply stop_returns_true.
  - exact N.
  - intros task. unfold armed. rewrite N. reflexivity.
Qed.

(** C9 at an agent whose three timers have just been armed. *)
Lemma stop_cancels_all_tasks_witness :
  let s := exec startMonitoring (friendly_env 0) (boot "/workspace" default_options empty_world) in
  timers (world s) = [(0%nat, HealthCheck); (1%nat, MemoryCleanup); (2%nat, GitHubSync)] /\
  timers (world (exec stop (friendly_env 1) s)) = [].
Proof.
  intros s. split; [reflexivity|].
  refine (proj1 (proj2 (stop_cancels_all_tasks (friendly_env 1) s _))).
  intros id task Hin.
  change (In (id, task) [(0%nat, HealthCheck); (1%nat, MemoryCleanup); (2%nat, GitHubSync)])
    in Hin.
  destruct Hin as [E | [E | [E | []]]]; injection E as <- <-; reflexivity.
Defined.

(** C10.  Over any run, whatever mixture of starts, stops, restarts,
    periodic tasks and child exits it contains, the restart counter never
    decreases: it is the initial value plus the number of failure
    detections made so far, and the ceiling is unchanged.  So once the
    detections of a lifetime have brought it to the ceiling, the next
    failing health check gives up, consecutive or not. *)
Theorem restart_counter_never_resets ops s env :
  let s' := run ops s in
  (restartCount (this s) <= restartCount (this s'))%nat /\
  restartCount (this s') = (restartCount (this s) + detections ops s)%nat /\
  maxRestarts (this s') = maxRestarts (this s) /\
  (forall o, (restartCount (this s') <= restartCount (this (step env o s')))%nat) /\
  (detects_failure (this s') = true ->
   (maxRestarts (this s) <= restartCount (this s) + detections ops s)%nat ->
   exec performHealthCheck env s' = exec abandon_recovery env s').
Proof.
  intros s'. destruct (run_counter ops s) as [Hc Hm]. fold s' in Hc, Hm.
  repeat split.
  - lia.
  - exact Hc.
  - exact Hm.
  - intros o. destruct (step_counter env o s') as [H _]. lia.
  - intros Hd Hle. apply performHealthCheck_gives_up; [exact Hd | lia].
Qed.

(** C10 on a run whose five failure detections are separated by a restart,
    a stop, a start and a status query: the next failing check gives up. *)
Lemma restart_counter_never_resets_witness :
  let e := friendly_env 0 in
  let s := boot "/workspace" default_options empty_world in
  let ops := [(e, TickHealthCheck); (e, CallRestart); (e, TickHealthCheck); (e, CallStop);
              (e, TickHealthCheck); (e, CallStart); (e, TickHealthCheck);
              (e, CallGetStatus); (e, TickHealthCheck)] in
  let s' := run ops s in
  detections ops s = 5%nat /\
  exec performHealthCheck e s' = exec abandon_recovery e s'.
Proof.
  intros e s ops s'. split.
  - vm_compute. reflexivity.
  - refine (proj2 (proj2 (proj2 (proj2 (restart_counter_never_resets ops s e)))) _ _).
    + vm_compute. reflexivity.
    + vm_compute. apply le_n.
Defined.

(* ===================================================================== *)
(** * External sync *)
(* ===================================================================== *)

(** Every run of the sync task ends normally and leaves the agent and the
    world as they were; at most one error line is printed. *)
Lemma performGitHubSync_run env s :
  exists l,
    performGitHubSync env s =
      (Returned tt, {| this := this s; world := world s; effects := effects s ++ l |}) /\
    (l = [] \/ exists text, l = [Console LError text]).
Proof.
  destruct s as [a w t].
  unfold performGitHubSync, memoryManager, printError, lift.
  unfold try_catch, bind, getThis, ask, perform, throw, ret.
  cbn [this world effects].
  destruct (githubAPI a) as [c|].
  2:{ exists []. rewrite app_nil_r. split; [reflexivity | left; reflexivity]. }
  destruct (githubConnected a); cbn [negb].
  2:{ exists []. rewrite app_nil_r. split; [reflexivity | left; reflexivity]. }
  cbv beta.
  destruct (github_listRepositories env) as [repos|e]; cbv beta iota.
  - destruct (success repos); cbv beta iota.
    + eexists. split; [reflexivity | right; eexists; reflexivity].
    + exists []. rewrite app_nil_r. split; [reflexivity | left; reflexivity].
  - eexists. split; [reflexivity | right; eexists; reflexivity].
Qed.

(** With a connected session and a successful page fetch the task reaches
    the store call, which throws because there is no memory manager. *)
Lemma performGitHubSync_connected env s c repos :
  githubAPI (this s) = Some c ->
  githubConnected (this s) = true ->
  github_listRepositories env = Returned repos ->
  success repos = true ->
  performGitHubSync env s =
    (Returned tt,
     {| this := this s; world := world s;
        effects := effects s ++
          [Console LError
             "GitHub sync failed: Cannot read properties of undefined (reading 'store')"] |}).
Proof.
  intros Ha Hc Hr Hs.
  unfold performGitHubSync, memoryManager, printError, lift.
  unfold try_catch, bind, getThis, ask, perform, throw, ret.
  rewrite Ha, Hc. cbv beta iota delta [negb]. rewrite Hr. cbv beta iota.
  rewrite Hs. reflexivity.
Qed.

(** C5.  The first half of the claim fails on the code: the sync task never
    adds an entry to the memory store.  In every state and environment it
    returns normally with the agent (memory store, running flag, process
    handle, restart counter) and the files unchanged, and with a connected
    session and a successful fetch all it does is print the TypeError raised
    by the call on the missing memory manager. *)
Theorem github_sync_never_stores :
  (forall env s,
     result performGitHubSync env s = Returned tt /\
     this (exec performGitHubSync env s) = this s /\
     world (exec performGitHubSync env s) = world s /\
     JsMap.size (memoryStore (this (exec performGitHubSync env s)))
     = JsMap.size (memoryStore (this s))) /\
  performGitHubSync (friendly_env 0) connected_machine =
    (Returned tt,
     {| this := this connected_machine;
        world := world connected_machine;
        effects :=
          [Console LError
             "GitHub sync failed: Cannot read properties of undefined (reading 'store')"] |}).
Proof.
  split.
  - intros env s. destruct (performGitHubSync_run env s) as (l & H & _).
    unfold result, exec. rewrite H. cbn [fst snd this world]. repeat split.
  - reflexivity.
Qed.

(* ===================================================================== *)
(** * Facts about Map and plain objects *)
(* ===================================================================== *)

Section MapFacts.
Context {V : Type}.
Local Open Scope list_scope.
Implicit Types (m : JsMap.t V) (k : string) (v : V).

Lemma entries_app m1 m2 :
  JsMap.entries (m1 ++ m2) = JsMap.entries m1 ++ JsMap.entries m2.
Proof.
  induction m1 as [|[kv|] m1 IH]; simpl; [reflexivity | rewrite IH; reflexivity | exact IH].
Qed.

Lemma keys_app m1 m2 : JsMap.keys (m1 ++ m2) = JsMap.keys m1 ++ JsMap.keys m2.
Proof. unfold JsMap.keys. rewrite entries_app, map_app. reflexivity. Qed.

Lemma entries_map_Some (l : list (string * V)) : JsMap.entries (map Some l) = l.
Proof. induction l as [|kv l IH]; simpl; [reflexivity | rewrite IH; reflexivity]. Qed.

Lemma get_not_in m k : ~ In k (JsMap.keys m) -> JsMap.get m k = None.
Proof.
  induction m as [|[[k' v']|] m IH]; simpl; intros H; [reflexivity | | apply IH, H].
  destruct (String.eqb_spec k' k) as [->|Hne].
  - exfalso. apply H. left. reflexivity.
  - apply IH. intros Hin. apply H. right. exact Hin.
Qed.

(** Lookup agrees with membership among the live entries. *)
Lemma get_In m k v :
  JsMap.WF m -> (JsMap.get m k = Some v <-> In (k, v) (JsMap.entries m)).
Proof.
  unfold JsMap.WF, JsMap.keys.
  induction m as [|[[k' v']|] m IH]; simpl; intros Hwf.
  - split; [discriminate | contradiction].
  - inversion Hwf as [|? ? Hnotin Hwf']; subst.
    destruct (String.eqb_spec k' k) as [->|Hne].
    + split.
      * intros [= ->]. left. reflexivity.
      * intros [[= ->] | Hin]; [reflexivity|].
        exfalso. apply Hnotin. apply (in_map fst) in Hin. exact Hin.
    + rewrite (IH Hwf'). split.
      * intros Hin. right. exact Hin.
      * intros [[= -> ->] | Hin]; [congruence | exact Hin].
  - apply IH, Hwf.
Qed.

Lemma delete_at (pre suf : JsMap.t V) k v :
  ~ In k (JsMap.keys pre) ->
  JsMap.delete (pre ++ @cons JsMap.slot (Some (k, v)) suf) k
  = pre ++ @cons JsMap.slot None suf.
Proof.
  induction pre as [|[[k' v']|] pre IH]; simpl; intros H.
  - rewrite String.eqb_refl. reflexivity.
  - destruct (String.eqb_spec k' k) as [->|Hne].
    + exfalso. apply H. left. reflexivity.
    + rewrite IH; [reflexivity|]. intros Hin. apply H. right. exact Hin.
  - rewrite IH; [reflexivity | exact H].
Qed.

Lemma set_fresh m k v :
  ~ In k (JsMap.keys m) -> JsMap.set m k v = m ++ [Some (k, v)].
Proof.
  induction m as [|[[k' v']|] m IH]; simpl; intros H.
  - reflexivity.
  - destruct (String.eqb_spec k' k) as [->|Hne].
    + exfalso. apply H. left. reflexivity.
    + rewrite IH; [reflexivity|]. intros Hin. apply H. right. exact Hin.
  - rewrite IH; [reflexivity | exact H].
Qed.

Lemma set_all_fresh (l : list (string * V)) : forall m,
  NoDup (JsMap.keys m ++ map fst l) -> JsMap.set_all m l = m ++ map Some l.
Proof.
  unfold JsMap.set_all.
  induction l as [|[k v] l IH]; simpl; intros m H.
  - rewrite app_nil_r. reflexivity.
  - pose proof (NoDup_remove_2 _ _ _ H) as Hk.
    rewrite set_fresh by (intros Hin; apply Hk, in_or_app; left; exact Hin).
    rewrite IH.
    + rewrite <- app_assoc. reflexivity.
    + rewrite keys_app. simpl. rewrite <- app_assoc. exact H.
Qed.

Lemma define_fresh (o : JsObject.t V) k v :
  ~ In k (map fst o) -> JsObject.define o k v = o ++ [(k, v)].
Proof.
  induction o as [|[k' v'] o IH]; simpl; intros H.
  - reflexivity.
  - destruct (String.eqb_spec k' k) as [->|Hne].
    + exfalso. apply H. left. reflexivity.
    + rewrite IH; [reflexivity|]. intros Hin. apply H. right. exact Hin.
Qed.

Lemma fold_define_fresh (l : list (string * V)) : forall o : JsObject.t V,
  NoDup (map fst o ++ map fst l) ->
  fold_left (fun acc kv => JsObject.define acc (fst kv) (snd kv)) l o = o ++ l.
Proof.
  induction l as [|[k v] l IH]; simpl; intros o H.
  - rewrite app_nil_r. reflexivity.
  - pose proof (NoDup_remove_2 _ _ _ H) as Hk.
    rewrite define_fresh by (intros Hin; apply Hk, in_or_app; left; exact Hin).
    rewrite IH.
    + rewrite <- app_assoc. reflexivity.
    + rewrite map_app. simpl. rewrite <- app_assoc. exact H.
Qed.

(** An object built from pairs with distinct keys lists them unchanged. *)
Lemma fromEntries_NoDup (l : list (string * V)) :
  NoDup (map fst l) -> JsObject.fromEntries l = l.
Proof. intros H. unfold JsObject.fromEntries. rewrite fold_define_fresh; [reflexivity | exact H]. Qed.

Lemma insert_index_perm n (p : string * V) l :
  Permutation (JsObject.insert_index n p l) ((n, p) :: l).
Proof.
  induction l as [|[n' p'] l IH]; simpl.
  - reflexivity.
  - destruct (n <=? n')%N.
    + reflexivity.
    + rewrite IH. apply perm_swap.
Qed.

(** Enumeration reorders the properties and nothing else. *)
Lemma object_entries_perm (o : JsObject.t V) : Permutation (JsObject.entries o) o.
Proof.
  unfold JsObject.entries.
  induction o as [|p o IH]; simpl.
  - reflexivity.
  - destruct (JsObject.array_index (fst p)).
    + rewrite insert_index_perm. simpl. apply perm_skip, IH.
    + rewrite <- Permutation_middle. apply perm_skip, IH.
Qed.

Lemma NoDup_keys_perm (l l' : list (string * V)) :
  Permutation l l' -> NoDup (map fst l') -> NoDup (map fst l).
Proof.
  intros Hp Hn. apply (Permutation_NoDup (l := map fst l')); [|exact Hn].
  apply Permutation_map. symmetry. exact Hp.
Qed.
End MapFacts.

(* ===================================================================== *)
(** * Memory store: eviction and persistence *)
(* ===================================================================== *)

Section Eviction.
Variables (t_now maxAge : Z).
Local Open Scope list_scope.

(** The loop visits every slot once: started at the slot that follows
    [pre], with at least as many steps left as there are slots, it
    rewrites the remaining slots one by one and stops at the end. *)
Lemma evict_from_spec (suf : MemoryStore) : forall (pre : MemoryStore) (extra : nat),
  NoDup (JsMap.keys (pre ++ suf)) ->
  evict_from (List.length suf + extra) (List.length pre) t_now maxAge (pre ++ suf)
  = pre ++ map (evict_slot t_now maxAge) suf.
Proof.
  induction suf as [|sl suf IH]; intros pre extra Hwf.
  - simpl. destruct extra as [|extra]; simpl; [reflexivity|].
    rewrite app_nil_r.
    rewrite (proj2 (nth_error_None pre (List.length pre)) (Nat.le_refl _)). reflexivity.
  - cbn [List.length Nat.add evict_from].
    rewrite nth_error_app2 by apply Nat.le_refl.
    rewrite Nat.sub_diag. cbn [nth_error].
    assert (Hlen : forall x : JsMap.slot, S (List.length pre) = List.length (pre ++ [x]))
      by (intros x; rewrite length_app, Nat.add_comm; reflexivity).
    assert (Hcons : forall x : JsMap.slot, pre ++ x :: suf = (pre ++ [x]) ++ suf)
      by (intros x; rewrite <- app_assoc; reflexivity).
    destruct sl as [[key entry]|].
    + cbn [map evict_slot]. unfold expired.
      rewrite keys_app in Hwf. simpl in Hwf.
      destruct (t_now - timestamp entry >? maxAge); cbv iota.
      * rewrite delete_at
          by (intros Hin; apply (NoDup_remove_2 _ _ _ Hwf), in_or_app; left; exact Hin).
        rewrite (Hcons None), (Hlen None), IH.
        -- rewrite <- app_assoc. reflexivity.
        -- rewrite !keys_app. simpl. rewrite app_nil_r.
           apply (NoDup_remove_1 _ _ _ Hwf).
      * rewrite (Hcons (Some (key, entry))), (Hlen (Some (key, entry))), IH.
        -- rewrite <- app_assoc. reflexivity.
        -- rewrite !keys_app. simpl. rewrite <- app_assoc. exact Hwf.
    + cbn [map evict_slot].
      rewrite (Hcons None), (Hlen None), IH.
      * rewrite <- app_assoc. reflexivity.
      * rewrite <- Hcons. exact Hwf.
Qed.

Lemma evictOlderThan_spec (m : MemoryStore) :
  JsMap.WF m -> evictOlderThan t_now maxAge m = map (evict_slot t_now maxAge) m.
Proof.
  intros Hwf. unfold evictOlderThan.
  rewrite <- (Nat.add_0_r (List.length m)).
  apply (evict_from_spec m [] 0). exact Hwf.
Qed.

Lemma entries_evicted (m : MemoryStore) :
  JsMap.entries (map (evict_slot t_now maxAge) m)
  = filter (fun kv => negb (expired t_now maxAge (snd kv))) (JsMap.entries m).
Proof.
  induction m as [|[[key entry]|] m IH]; simpl.
  - reflexivity.
  - destruct (expired t_now maxAge entry); simpl; rewrite IH; reflexivity.
  - exact IH.
Qed.

Lemma NoDup_keys_filter {V} (f : string * V -> bool) (l : list (string * V)) :
  NoDup (map fst l) -> NoDup (map fst (filter f l)).
Proof.
  induction l as [|kv l IH]; simpl; intros H; [constructor|].
  inversion H as [|? ? Hnotin H']; subst.
  destruct (f kv); simpl; [constructor|]; auto.
  intros Hin. apply Hnotin.
  apply in_map_iff in Hin. destruct Hin as (x & Hx & Hin).
  apply filter_In in Hin. apply in_map_iff. exists x. tauto.
Qed.

Lemma evicted_WF (m : MemoryStore) :
  JsMap.WF m -> JsMap.WF (map (evict_slot t_now maxAge) m).
Proof.
  unfold JsMap.WF, JsMap.keys. rewrite entries_evicted. apply NoDup_keys_filter.
Qed.

(** Lookup after eviction: exactly the entries that were not expired. *)
Lemma get_evicted (m : MemoryStore) key entry :
  JsMap.WF m ->
  (JsMap.get (map (evict_slot t_now maxAge) m) key = Some entry <->
   JsMap.get m key = Some entry /\ expired t_now maxAge entry = false).
Proof.
  intros Hwf.
  rewrite (get_In _ _ _ (evicted_WF m Hwf)), (get_In _ _ _ Hwf), entries_evicted, filter_In.
  simpl. rewrite negb_true_iff. reflexivity.
Qed.
End Eviction.

(** The store after [performMemoryCleanup()] is the evicted store, whether
    or not the snapshot could be written. *)
Lemma performMemoryCleanup_store env s :
  memoryStore (this (exec performMemoryCleanup env s))
  = evictOlderThan (now env) (24 * 60 * 60 * 1000) (memoryStore (this s)).
Proof.
  unfold performMemoryCleanup.
  match goal with
  | |- context [try_catch ?m ?h] =>
      assert (H : same_agent (exec m env s) (exec (try_catch m h) env s))
        by (apply try_catch_after; [typeclasses eauto | intro; frame]);
      unfold same_agent in H; rewrite H; clear H
  end.
  erewrite exec_step by reflexivity.
  match goal with
  | |- context [exec (bind ?m ?k) env s] =>
      assert (H : same_agent (exec m env s) (exec (bind m k) env s))
        by (apply bind_after; [typeclasses eauto | intro; frame]);
      unfold same_agent in H; rewrite H; clear H
  end.
  reflexivity.
Qed.

(** C6.  After the periodic memory cleanup, run at any time on any store,
    every surviving entry has age at most 24 h, every entry whose age was at
    most 24 h is still there under its key with the same payload and
    timestamp, nothing else appears, and the iterator has visited every
    slot (more steps would change nothing). *)
Theorem cleanup_evicts_exactly_the_expired env s :
  JsMap.WF (memoryStore (this s)) ->
  let maxAge := 24 * 60 * 60 * 1000 in
  let before := memoryStore (this s) in
  let after := memoryStore (this (exec performMemoryCleanup env s)) in
  (forall key entry,
     JsMap.get after key = Some entry -> now env - timestamp entry <= maxAge) /\
  (forall key entry,
     JsMap.get before key = Some entry ->
     now env - timestamp entry <= maxAge ->
     JsMap.get after key = Some entry) /\
  (forall key entry,
     JsMap.get after key = Some entry -> JsMap.get before key = Some entry) /\
  (forall extra,
     evict_from (List.length before + extra) 0 (now env) maxAge before = after).
Proof.
  intros Hwf maxAge before after.
  assert (E : after = map (evict_slot (now env) maxAge) before).
  { subst after. rewrite performMemoryCleanup_store. apply evictOlderThan_spec, Hwf. }
  rewrite E. split; [|split; [|split]].
  - intros key entry H. apply get_evicted in H; [|exact Hwf].
    destruct H as [_ H]. unfold expired in H. rewrite Z.gtb_ltb in H.
    apply Z.ltb_ge in H. exact H.
  - intros key entry H Hage. apply get_evicted; [exact Hwf|]. split; [exact H|].
    unfold expired. rewrite Z.gtb_ltb. apply Z.ltb_ge. exact Hage.
  - intros key entry H. apply get_evicted in H; [|exact Hwf]. apply H.
  - intros extra. apply (evict_from_spec (now env) maxAge before [] extra). exact Hwf.
Qed.

(** C6 on [sample_store] at time 100 000 000: the entry written at
    90 000 000 survives. *)
Lemma cleanup_evicts_exactly_the_expired_witness :
  JsMap.WF sample_store /\
  JsMap.get (memoryStore (this (exec performMemoryCleanup (friendly_env 100000000) sample_machine)))
    "notes" = Some {| payload := "beta"; timestamp := 90000000 |}.
Proof.
  assert (W : JsMap.WF sample_store).
  { unfold JsMap.WF. simpl. repeat constructor; simpl; intuition discriminate. }
  split; [exact W|].
  refine (proj1 (proj2 (cleanup_evicts_exactly_the_expired
                          (friendly_env 100000000) sample_machine W))
            "notes" {| payload := "beta"; timestamp := 90000000 |} eq_refl _).
  simpl. discriminate.
Defined.

Lemma saveMemory_persisted env s :
  write_error env MemoryFile = None ->
  exec saveMemory env s =
  {| this := this s;
     world := set_memoryFile
                (Some (JSON_stringify (JsObject.fromEntries (JsMap.entries (memoryStore (this s))))))
                (world s);
     effects := effects s |}.
Proof.
  intros H. unfold saveMemory, writeMemoryFile.
  unfold exec, try_catch, bind, getThis, ask, updateWorld, throw.
  cbv beta. rewrite H. reflexivity.
Qed.

Lemma loadMemory_snapshot env s members :
  memoryFile (world s) = Some (JsonObject members) ->
  memoryStore (this (exec loadMemory env s))
  = JsMap.set_all (memoryStore (this s)) (JsObject.entries (JsObject.fromEntries members)).
Proof.
  intros H. unfold loadMemory, readMemoryFile, JSON_parse.
  unfold exec, try_catch, bind, getWorld, update, throw, ret.
  cbv beta. rewrite H. reflexivity.
Qed.

(** A missing or unparsable snapshot leaves the store as it is. *)
Lemma loadMemory_without_snapshot env s :
  memoryFile (world s) = None \/ memoryFile (world s) = Some NotJson ->
  exec loadMemory env s = s.
Proof.
  intros H. unfold loadMemory, readMemoryFile, JSON_parse.
  unfold exec, try_catch, bind, getWorld, update, throw, ret.
  cbv beta. destruct H as [H|H]; rewrite H; reflexivity.
Qed.

(** C7.  When the snapshot is written, loading it into a freshly
    constructed agent gives a store with exactly the entries of the store
    that was persisted: the same keys, each with the same payload and
    timestamp, none added and none lost (the iteration order may differ). *)
Theorem persist_then_load_roundtrip env env' cwd options s :
  JsMap.WF (memoryStore (this s)) ->
  write_error env MemoryFile = None ->
  let persisted := exec saveMemory env s in
  let loaded := exec loadMemory env' (boot cwd options (world persisted)) in
  Permutation (JsMap.entries (memoryStore (this loaded)))
              (JsMap.entries (memoryStore (this s))) /\
  (forall key, JsMap.get (memoryStore (this loaded)) key
               = JsMap.get (memoryStore (this s)) key) /\
  JsMap.WF (memoryStore (this loaded)) /\
  JsMap.size (memoryStore (this loaded)) = JsMap.size (memoryStore (this s)).
Proof.
  intros Hwf Hw persisted loaded.
  set (E := JsMap.entries (memoryStore (this s))).
  assert (HE : NoDup (map fst E)) by exact Hwf.
  set (E1 := JsObject.entries E).
  assert (P1 : Permutation E1 E) by apply object_entries_perm.
  assert (H1 : NoDup (map fst E1)) by (apply (NoDup_keys_perm _ _ P1), HE).
  set (E2 := JsObject.entries E1).
  assert (P2 : Permutation E2 E1) by apply object_entries_perm.
  assert (H2 : NoDup (map fst E2)) by (apply (NoDup_keys_perm _ _ P2), H1).
  assert (L : memoryStore (this loaded) = map Some E2).
  { subst loaded persisted. rewrite saveMemory_persisted by exact Hw.
    erewrite loadMemory_snapshot by reflexivity.
    fold E. rewrite (fromEntries_NoDup E HE). fold E1.
    rewrite (fromEntries_NoDup E1 H1). fold E2.
    apply (set_all_fresh E2 []). exact H2. }
  assert (LE : JsMap.entries (memoryStore (this loaded)) = E2)
    by (rewrite L; apply entries_map_Some).
  assert (P : Permutation E2 E) by (rewrite P2; exact P1).
  assert (W : JsMap.WF (memoryStore (this loaded)))
    by (unfold JsMap.WF, JsMap.keys; rewrite LE; exact H2).
  split; [rewrite LE; exact P|]. split; [|split; [exact W|]].
  - intros key.
    destruct (JsMap.get (memoryStore (this s)) key) as [v|] eqn:G.
    + apply (get_In _ _ _ W). rewrite LE. apply (Permutation_in _ (Permutation_sym P)).
      apply (get_In _ _ _ Hwf). exact G.
    + destruct (JsMap.get (memoryStore (this loaded)) key) as [v|] eqn:G'; [|reflexivity].
      apply (get_In _ _ _ W) in G'. rewrite LE in G'.
      apply (Permutation_in _ P) in G'. apply (get_In _ _ _ Hwf) in G'. congruence.
  - unfold JsMap.size. rewrite LE. apply Permutation_length, P.
Qed.

(** C7 on [sample_store]: the loaded store lists the array-index key
    first and has the same three entries. *)
Lemma persist_then_load_roundtrip_witness :
  JsMap.WF sample_store /\
  JsMap.entries
    (memoryStore
       (this (exec loadMemory (friendly_env 1)
                (boot "/elsewhere" default_options
                   (world (exec saveMemory (friendly_env 0) sample_machine))))))
  = [("7", {| payload := "gamma"; timestamp := 100000000 |});
     ("session", {| payload := "alpha"; timestamp := 0 |});
     ("notes", {| payload := "beta"; timestamp := 90000000 |})] /\
  JsMap.size
    (memoryStore
       (this (exec loadMemory (friendly_env 1)
                (boot "/elsewhere" default_options
                   (world (exec saveMemory (friendly_env 0) sample_machine))))))
  = JsMap.size sample_store.
Proof.
  assert (W : JsMap.WF sample_store).
  { unfold JsMap.WF. simpl. repeat constructor; simpl; intuition discriminate. }
  split; [exact W|]. split; [reflexivity|].
  exact (proj2 (proj2 (proj2 (persist_then_load_roundtrip
                                (friendly_env 0) (friendly_env 1) "/elsewhere"
                                default_options sample_machine W eq_refl)))).
Defined.

(* ===================================================================== *)
(** * Command-line flags: what the parser records *)
(* ===================================================================== *)

Section FlagFacts.
Context {V : Type}.
Local Open Scope list_scope.

Lemma keys_define (o : JsObject.t V) k k' v :
  In k (map fst (JsObject.define o k' v)) <-> k = k' \/ In k (map fst o).
Proof.
  induction o as [|[k0 v0] o IH]; simpl.
  - split; [intros [H|[]]; left; auto | intros [H|[]]; left; auto].
  - destruct (String.eqb_spec k0 k') as [->|Hne]; simpl.
    + split; [intros [H|H]; auto | intros [H|[H|H]]; auto].
    + rewrite IH. split; [intros [H|[H|H]]; auto | intros [H|[H|H]]; auto].
Qed.

Lemma in_define (o : JsObject.t V) k v k' v' :
  In (k, v) (JsObject.define o k' v') -> (k = k' /\ v = v') \/ In (k, v) o.
Proof.
  induction o as [|[k0 v0] o IH]; simpl.
  - intros [[= <- <-]|[]]. left. split; reflexivity.
  - destruct (String.eqb_spec k0 k') as [->|Hne]; simpl.
    + intros [[= <- <-]|H]; [left; split; reflexivity | right; right; exact H].
    + intros [H|H]; [right; left; exact H|].
      destruct (IH H) as [E|Hin]; [left; exact E | right; right; exact Hin].
Qed.

Lemma define_NoDup (o : JsObject.t V) k v :
  NoDup (map fst o) -> NoDup (map fst (JsObject.define o k v)).
Proof.
  induction o as [|[k0 v0] o IH]; simpl; intros H.
  - constructor; [intros [] | constructor].
  - inversion H as [|? ? Hnotin H']; subst.
    destruct (String.eqb_spec k0 k) as [->|Hne]; simpl.
    + constructor; assumption.
    + constructor; [|apply IH, H'].
      rewrite keys_define. intros [E|Hin]; [apply Hne; exact E | apply Hnotin, Hin].
Qed.
End FlagFacts.

Lemma keys_assign_flag flags name v k :
  In k (map fst (assign_flag flags name v))
  <-> (k = name /\ name <> "__proto__") \/ In k (map fst flags).
Proof.
  unfold assign_flag. destruct (String.eqb_spec name "__proto__") as [E|Hne].
  - split; [intros H; right; exact H | intros [[_ H]|H]; [contradiction | exact H]].
  - rewrite keys_define. split.
    + intros [H|H]; [left; split; assumption | right; exact H].
    + intros [[H _]|H]; [left; exact H | right; exact H].
Qed.

Lemma in_assign_flag flags name v k w :
  In (k, w) (assign_flag flags name v) -> (k = name /\ w = v) \/ In (k, w) flags.
Proof.
  unfold assign_flag. destruct (String.eqb name "__proto__").
  - intros H. right. exact H.
  - apply in_define.
Qed.

Lemma flag_names_cons_flag arg rest :
  startsWithDashes arg = true ->
  flag_names (arg :: rest) = substring_from 2 arg :: flag_names rest.
Proof. intros H. unfold flag_names. simpl. rewrite H. reflexivity. Qed.

Lemma flag_names_cons_other arg rest :
  startsWithDashes arg = false -> flag_names (arg :: rest) = flag_names rest.
Proof. intros H. unfold flag_names. simpl. rewrite H. reflexivity. Qed.

Lemma parseFlags_keys_bounded n : forall args flags k,
  (List.length args <= n)%nat ->
  (In k (map fst (parseFlags args flags))
   <-> In k (map fst flags) \/ (In k (flag_names args) /\ k <> "__proto__")).
Proof.
  induction n as [|n IH]; intros args flags k Hlen.
  - destruct args; [|simpl in Hlen; lia]. simpl. tauto.
  - destruct args as [|arg rest]; [simpl; tauto|].
    simpl in Hlen. cbn [parseFlags].
    destruct (startsWithDashes arg) eqn:Ha.
    + rewrite (flag_names_cons_flag _ _ Ha).
      destruct rest as [|nextArg rest'].
      * rewrite keys_assign_flag. simpl. split.
        -- intros [[-> Hne]|H]; [right; split; [left; reflexivity | exact Hne] | left; exact H].
        -- intros [H|[[<-|[]] Hne]]; [right; exact H | left; split; [reflexivity | exact Hne]].
      * destruct (nonempty nextArg && negb (startsWithDashes nextArg)) eqn:Hv.
        -- apply andb_true_iff in Hv. destruct Hv as [_ Hv]. apply negb_true_iff in Hv.
           rewrite (flag_names_cons_other _ _ Hv).
           rewrite IH by (simpl in Hlen; lia). rewrite keys_assign_flag. simpl. split.
           ++ intros [[[-> Hne]|H]|[H Hne]]; auto.
           ++ intros [H|[[<-|H] Hne]]; auto.
        -- rewrite IH by lia. rewrite keys_assign_flag. simpl. split.
           ++ intros [[[-> Hne]|H]|[H Hne]]; auto.
           ++ intros [H|[[<-|H] Hne]]; auto.
    + rewrite (flag_names_cons_other _ _ Ha). apply IH. lia.
Qed.

(** X1.  The parsed flags have exactly the names of the arguments that start
    with two dashes, the name [__proto__] excepted; in particular an
    argument taken as a value is never a flag, and a command line without
    flags gives the empty object. *)
Theorem parseFlags_keys args k :
  In k (map fst (parseFlags args [])) <-> In k (flag_names args) /\ k <> "__proto__".
Proof.
  rewrite (parseFlags_keys_bounded (List.length args) args [] k (Nat.le_refl _)).
  simpl. tauto.
Qed.

Lemma parseFlags_values_bounded n : forall args flags name text,
  (List.length args <= n)%nat ->
  In (name, FlagText text) (parseFlags args flags) ->
  In (name, FlagText text) flags \/
  (In text args /\ nonempty text = true /\ startsWithDashes text = false).
Proof.
  induction n as [|n IH]; intros args flags name text Hlen.
  - destruct args; [|simpl in Hlen; lia]. simpl. auto.
  - destruct args as [|arg rest]; [simpl; auto|].
    simpl in Hlen. cbn [parseFlags].
    destruct (startsWithDashes arg) eqn:Ha.
    + destruct rest as [|nextArg rest'].
      * intros H. apply in_assign_flag in H. destruct H as [[_ [=]]|H]. left. exact H.
      * destruct (nonempty nextArg && negb (startsWithDashes nextArg)) eqn:Hv.
        -- apply andb_true_iff in Hv. destruct Hv as [Hn Hv]. apply negb_true_iff in Hv.
           intros H. apply IH in H; [|simpl in Hlen; lia].
           destruct H as [H|(H1 & H2 & H3)].
           ++ apply in_assign_flag in H. destruct H as [[_ [= ->]]|H]; [|left; exact H].
              right. split; [right; left; reflexivity | split; assumption].
           ++ right. split; [right; right; exact H1 | split; assumption].
        -- intros H. apply IH in H; [|lia].
           destruct H as [H|(H1 & H2 & H3)].
           ++ apply in_assign_flag in H. destruct H as [[_ [=]]|H]. left. exact H.
           ++ right. split; [right; exact H1 | split; assumption].
    + intros H. apply IH in H; [|lia].
      destruct H as [H|(H1 & H2 & H3)]; [left; exact H|].
      right. split; [right; exact H1 | split; assumption].
Qed.

(** X2.  A flag's text value is one of the arguments, and it is never empty and
    never itself starts with two dashes. *)
Theorem parseFlags_values args name text :
  In (name, FlagText text) (parseFlags args []) ->
  In text args /\ nonempty text = true /\ startsWithDashes text = false.
Proof.
  intros H.
  destruct (parseFlags_values_bounded (List.length args) args [] name text
              (Nat.le_refl _) H) as [[]|H'].
  exact H'.
Qed.

Lemma parseFlags_values_witness :
  parseFlags ["start"; "--port"; "3002"; "--daemon"; "--log-level"; ""; "--port"; "4000"] []
  = [("port", FlagText "4000"); ("daemon", FlagTrue); ("log-level", FlagTrue)] /\
  In "4000" ["start"; "--port"; "3002"; "--daemon"; "--log-level"; ""; "--port"; "4000"].
Proof.
  split; [reflexivity|].
  apply (parseFlags_values
           ["start"; "--port"; "3002"; "--daemon"; "--log-level"; ""; "--port"; "4000"]
           "port" "4000").
  left. reflexivity.
Defined.

(* ===================================================================== *)
(** * Loading and saving the memory snapshot *)
(* ===================================================================== *)

Section LookupFacts.
Context {V : Type}.
Local Open Scope list_scope.

Lemma get_set (m : JsMap.t V) k v k' :
  JsMap.get (JsMap.set m k v) k' = if String.eqb k k' then Some v else JsMap.get m k'.
Proof.
  induction m as [|[[k0 v0]|] m IH]; simpl.
  - destruct (String.eqb k k'); reflexivity.
  - destruct (String.eqb_spec k0 k) as [->|Hne]; simpl.
    + destruct (String.eqb k k'); reflexivity.
    + destruct (String.eqb_spec k0 k') as [->|Hne'].
      * destruct (String.eqb_spec k k') as [E|_]; [congruence | reflexivity].
      * exact IH.
  - exact IH.
Qed.

Lemma get_set_all (l : list (string * V)) : forall (m : JsMap.t V) k,
  JsMap.get (JsMap.set_all m l) k
  = match assoc_last l k with
    | Some v => Some v
    | None => JsMap.get m k
    end.
Proof.
  unfold JsMap.set_all.
  induction l as [|[k1 v1] l IH]; intros m k; simpl; [reflexivity|].
  rewrite IH. destruct (assoc_last l k); [reflexivity|].
  rewrite get_set. destruct (String.eqb k1 k); reflexivity.
Qed.

Lemma assoc_last_not_in (l : list (string * V)) k :
  ~ In k (map fst l) -> assoc_last l k = None.
Proof.
  induction l as [|[k0 v0] l IH]; simpl; intros H; [reflexivity|].
  rewrite IH by tauto.
  destruct (String.eqb_spec k0 k) as [E|_]; [exfalso; apply H; left; exact E | reflexivity].
Qed.

(** With distinct keys, lookup is membership. *)
Lemma assoc_last_In (l : list (string * V)) k :
  NoDup (map fst l) -> forall v, assoc_last l k = Some v <-> In (k, v) l.
Proof.
  induction l as [|[k0 v0] l IH]; simpl; intros H v.
  - split; [discriminate | contradiction].
  - inversion H as [|? ? Hnotin H']; subst.
    pose proof (IH H') as IH'. clear IH.
    destruct (assoc_last l k) as [w|].
    + assert (Hw : In (k, w) l) by (apply IH'; reflexivity).
      split; [intros E; right; apply IH'; exact E|].
      intros [[= -> ->]|Hv]; [|apply IH'; exact Hv].
      exfalso. apply Hnotin. apply (in_map fst) in Hw. exact Hw.
    + destruct (String.eqb_spec k0 k) as [->|Hne].
      * split; [intros [= ->]; left; reflexivity|].
        intros [[= ->]|Hin]; [reflexivity|].
        apply IH' in Hin. discriminate.
      * split; [discriminate|].
        intros [[= -> ->]|Hin]; [congruence|]. apply IH' in Hin. discriminate.
Qed.

Lemma assoc_last_perm (l l' : list (string * V)) k :
  NoDup (map fst l) -> Permutation l' l -> assoc_last l' k = assoc_last l k.
Proof.
  intros H P.
  assert (H' : NoDup (map fst l')) by (apply (NoDup_keys_perm _ _ P), H).
  destruct (assoc_last l k) as [v|] eqn:E.
  - apply (assoc_last_In _ _ H'). apply (Permutation_in _ (Permutation_sym P)).
    apply (assoc_last_In _ _ H). exact E.
  - destruct (assoc_last l' k) as [v|] eqn:E'; [|reflexivity].
    apply (assoc_last_In _ _ H') in E'. apply (Permutation_in _ P) in E'.
    apply (assoc_last_In _ _ H) in E'. congruence.
Qed.

Lemma assoc_last_define (o : JsObject.t V) k v k' :
  NoDup (map fst o) ->
  assoc_last (JsObject.define o k v) k'
  = if String.eqb k k' then Some v else assoc_last o k'.
Proof.
  induction o as [|[k0 v0] o IH]; simpl; intros H.
  - reflexivity.
  - inversion H as [|? ? Hnotin H']; subst.
    destruct (String.eqb_spec k0 k) as [->|Hne]; simpl.
    + destruct (String.eqb_spec k k') as [->|Hne'].
      * rewrite (assoc_last_not_in o k' Hnotin). reflexivity.
      * reflexivity.
    + rewrite (IH H').
      destruct (String.eqb_spec k k') as [->|Hne'].
      * reflexivity.
      * reflexivity.
Qed.

Lemma fold_define_NoDup (l : list (string * V)) : forall o : JsObject.t V,
  NoDup (map fst o) ->
  NoDup (map fst (fold_left (fun acc kv => JsObject.define acc (fst kv) (snd kv)) l o)).
Proof.
  induction l as [|[k v] l IH]; simpl; intros o H; [exact H|].
  apply IH, define_NoDup, H.
Qed.

Lemma assoc_last_fold_define (l : list (string * V)) : forall (o : JsObject.t V) k,
  NoDup (map fst o) ->
  assoc_last (fold_left (fun acc kv => JsObject.define acc (fst kv) (snd kv)) l o) k
  = match assoc_last l k with
    | Some v => Some v
    | None => assoc_last o k
    end.
Proof.
  induction l as [|[k1 v1] l IH]; intros o k H; simpl; [reflexivity|].
  rewrite IH by (apply define_NoDup, H).
  destruct (assoc_last l k); [reflexivity|].
  rewrite (assoc_last_define _ _ _ _ H). destruct (String.eqb k1 k); reflexivity.
Qed.

(** Parsing an object literal and listing its entries keeps, for every
    key, the value of its last member. *)
Lemma assoc_last_parsed (members : list (string * V)) k :
  assoc_last (JsObject.entries (JsObject.fromEntries members)) k = assoc_last members k.
Proof.
  assert (H : NoDup (map fst (JsObject.fromEntries members)))
    by (apply fold_define_NoDup; constructor).
  rewrite (assoc_last_perm _ _ k H (object_entries_perm _)).
  unfold JsObject.fromEntries. rewrite assoc_last_fold_define by constructor.
  destruct (assoc_last members k); reflexivity.
Qed.
End LookupFacts.

(** X3.  [loadMemory()] does not clear the store: it lays the snapshot over it.
    A key of the snapshot takes the value of its last member in the file;
    every other key keeps the entry the store had. *)
Theorem loadMemory_merges env s members key :
  memoryFile (world s) = Some (JsonObject members) ->
  JsMap.get (memoryStore (this (exec loadMemory env s))) key
  = match assoc_last members key with
    | Some entry => Some entry
    | None => JsMap.get (memoryStore (this s)) key
    end.
Proof.
  intros H. rewrite (loadMemory_snapshot env s members H).
  rewrite get_set_all, assoc_last_parsed. reflexivity.
Qed.

Lemma loadMemory_merges_witness :
  let s := {| this := this sample_machine;
              world := set_memoryFile
                         (Some (JsonObject
                                  [("notes", {| payload := "old"; timestamp := 1 |});
                                   ("extra", {| payload := "delta"; timestamp := 2 |});
                                   ("notes", {| payload := "new"; timestamp := 3 |})]))
                         empty_world;
              effects := [] |} in
  JsMap.get (memoryStore (this (exec loadMemory (friendly_env 0) s))) "notes"
  = Some {| payload := "new"; timestamp := 3 |} /\
  JsMap.get (memoryStore (this (exec loadMemory (friendly_env 0) s))) "session"
  = Some {| payload := "alpha"; timestamp := 0 |}.
Proof.
  intros s. split.
  - exact (loadMemory_merges (friendly_env 0) s _ "notes" eq_refl).
  - exact (loadMemory_merges (friendly_env 0) s _ "session" eq_refl).
Defined.

(** X4.  [initializeMemoryManagement()] cannot tell a failed load from a
    successful one: [loadMemory] swallows every error, so the method always
    prints its success line and never its warning, and with a missing or
    unparsable snapshot the store is left as it was. *)
Theorem initializeMemoryManagement_always_reports_success env s :
  result initializeMemoryManagement env s = Returned tt /\
  effects (exec initializeMemoryManagement env s)
  = (effects s ++ [Console LInfo "Memory management initialized"])%list /\
  world (exec initializeMemoryManagement env s) = world s /\
  ((memoryFile (world s) = None \/ memoryFile (world s) = Some NotJson) ->
   this (exec initializeMemoryManagement env s) = this s).
Proof.
  unfold initializeMemoryManagement, loadMemory, readMemoryFile, JSON_parse, printInfo.
  unfold result, exec, try_catch, bind, getWorld, update, throw, ret, perform.
  cbv beta.
  destruct (memoryFile (world s)) as [[members|]|]; cbn [fst snd this world effects].
  - repeat split. intros [H|H]; discriminate.
  - repeat split. 
  - repeat split.
Qed.

Lemma initializeMemoryManagement_always_reports_success_witness :
  this (exec initializeMemoryManagement (friendly_env 0) sample_machine) = this sample_machine.
Proof.
  apply (initializeMemoryManagement_always_reports_success (friendly_env 0) sample_machine).
  left. reflexivity.
Defined.

#[local] Instance same_snapshot_preorder : PreOrder same_snapshot.
Proof.
  split.
  - intros s. reflexivity.
  - intros s1 s2 s3 H1 H2. unfold same_snapshot in *. congruence.
Qed.

Ltac snapshot_prim :=
  let env := fresh "env" in
  let s := fresh "s" in
  intros env s;
  unfold exec, update, updateWorld, perform, same_snapshot, cancel;
  simpl;
  repeat match goal with
         | |- context [match ?x with _ => _ end] => destruct x; simpl
         end;
  reflexivity.

Lemma log_keeps_snapshot text : keeps same_snapshot (log text).
Proof. frame_with snapshot_prim. Qed.

#[local] Hint Resolve log_keeps_snapshot : frame.

Lemma evict_slot_later t1 t2 maxAge sl :
  t1 <= t2 -> evict_slot t2 maxAge (evict_slot t1 maxAge sl) = evict_slot t2 maxAge sl.
Proof.
  intros H. destruct sl as [[key entry]|]; [|reflexivity].
  unfold evict_slot, expired.
  destruct (t1 - timestamp entry >? maxAge) eqn:E1; [|reflexivity].
  destruct (t2 - timestamp entry >? maxAge) eqn:E2; [reflexivity|].
  rewrite Z.gtb_ltb in E1, E2. apply Z.ltb_lt in E1. apply Z.ltb_ge in E2. lia.
Qed.

(** X5.  A cleanup followed by a later cleanup leaves the store the later one
    alone would leave; run twice at the same instant, the second run changes
    nothing. *)
Theorem cleanup_then_later_cleanup env1 env2 s :
  JsMap.WF (memoryStore (this s)) ->
  now env1 <= now env2 ->
  memoryStore (this (exec performMemoryCleanup env2 (exec performMemoryCleanup env1 s)))
  = memoryStore (this (exec performMemoryCleanup env2 s)).
Proof.
  intros Hwf Hle. rewrite !performMemoryCleanup_store.
  rewrite (evictOlderThan_spec (now env1) _ _ Hwf).
  rewrite (evictOlderThan_spec (now env2) _ _ Hwf).
  rewrite (evictOlderThan_spec (now env2) _ _ (evicted_WF (now env1) _ _ Hwf)).
  rewrite map_map. apply map_ext. intros sl. apply evict_slot_later, Hle.
Qed.

Lemma cleanup_then_later_cleanup_witness :
  memoryStore (this (exec performMemoryCleanup (friendly_env 100000000)
                       (exec performMemoryCleanup (friendly_env 100000000) sample_machine)))
  = memoryStore (this (exec performMemoryCleanup (friendly_env 100000000) sample_machine)).
Proof.
  apply (cleanup_then_later_cleanup (friendly_env 100000000) (friendly_env 100000000)
           sample_machine).
  - unfold JsMap.WF. simpl. repeat constructor; simpl; intuition discriminate.
  - simpl. discriminate.
Defined.

(** The snapshot file after a cleanup whose write succeeds. *)
Lemma performMemoryCleanup_snapshot env s :
  write_error env MemoryFile = None ->
  memoryFile (world (exec performMemoryCleanup env s))
  = Some (JSON_stringify
            (JsObject.fromEntries
               (JsMap.entries (memoryStore (this (exec performMemoryCleanup env s)))))).
Proof.
  intros Hw. rewrite performMemoryCleanup_store. unfold performMemoryCleanup.
  match goal with
  | |- context [try_catch ?m ?h] =>
      assert (H : same_snapshot (exec m env s) (exec (try_catch m h) env s))
        by (apply try_catch_after; [typeclasses eauto | intro; frame_with snapshot_prim]);
      unfold same_snapshot in H; rewrite H; clear H
  end.
  do 2 (erewrite exec_step by reflexivity). cbv beta.
  match goal with
  | |- context [exec (bind saveMemory ?k) env ?s1] =>
      assert (H : same_snapshot (exec saveMemory env s1) (exec (bind saveMemory k) env s1))
        by (apply bind_after; [typeclasses eauto | intro; frame_with snapshot_prim]);
      unfold same_snapshot in H; rewrite H; clear H
  end.
  rewrite saveMemory_persisted by exact Hw. reflexivity.
Qed.

Lemma assoc_last_entries (m : MemoryStore) key :
  JsMap.WF m -> assoc_last (JsMap.entries m) key = JsMap.get m key.
Proof.
  intros Hwf.
  destruct (JsMap.get m key) as [v|] eqn:G.
  - apply (assoc_last_In _ _ Hwf). apply (get_In _ _ _ Hwf). exact G.
  - destruct (assoc_last (JsMap.entries m) key) as [v|] eqn:E; [|reflexivity].
    apply (assoc_last_In _ _ Hwf) in E. apply (get_In _ _ _ Hwf) in E. congruence.
Qed.

(** X6.  What a cleanup keeps is what it persists: when its write succeeds, a
    fresh agent that loads the file finds, under every key, the entry the
    cleaned store holds, and nothing under the keys that were evicted. *)
Theorem cleanup_persists_survivors env env' cwd options s key :
  JsMap.WF (memoryStore (this s)) ->
  write_error env MemoryFile = None ->
  let cleaned := exec performMemoryCleanup env s in
  let loaded := exec loadMemory env' (boot cwd options (world cleaned)) in
  JsMap.get (memoryStore (this loaded)) key = JsMap.get (memoryStore (this cleaned)) key.
Proof.
  intros Hwf Hw cleaned loaded.
  assert (W : JsMap.WF (memoryStore (this cleaned))).
  { subst cleaned. rewrite performMemoryCleanup_store, (evictOlderThan_spec _ _ _ Hwf).
    apply evicted_WF, Hwf. }
  subst loaded.
  erewrite loadMemory_snapshot
    by (cbn [boot world]; apply (performMemoryCleanup_snapshot env s Hw)).
  rewrite get_set_all, assoc_last_parsed.
  fold cleaned. rewrite assoc_last_parsed, (assoc_last_entries _ _ W).
  destruct (JsMap.get (memoryStore (this cleaned)) key); reflexivity.
Qed.

Lemma cleanup_persists_survivors_witness :
  let cleaned := exec performMemoryCleanup (friendly_env 100000000) sample_machine in
  let loaded := exec loadMemory (friendly_env 1)
                  (boot "/elsewhere" default_options (world cleaned)) in
  JsMap.get (memoryStore (this loaded)) "session"
  = JsMap.get (memoryStore (this cleaned)) "session".
Proof.
  apply (cleanup_persists_survivors (friendly_env 100000000) (friendly_env 1)
           "/elsewhere" default_options sample_machine "session").
  - unfold JsMap.WF. simpl. repeat constructor; simpl; intuition discriminate.
  - reflexivity.
Defined.

(* ===================================================================== *)
(** * Arming and cancelling the periodic tasks *)
(* ===================================================================== *)

Lemma startMonitoring_run env s : startMonitoring env s = (Returned tt, monitored s).
Proof.
  unfold startMonitoring, setInterval, monitored.
  unfold bind, getWorld, perform, updateWorld, update, ret.
  cbn [this world effects timers nextTimer set_timers set_intervals
       healthCheckInterval memoryCleanupInterval githubSyncInterval].
  rewrite <- !app_assoc. reflexivity.
Qed.

Lemma monitored_fresh s : ids_fresh s -> ids_fresh (monitored s).
Proof.
  intros H id task Hin. unfold monitored in *. cbn [world timers nextTimer set_timers] in *.
  apply in_app_or in Hin. destruct Hin as [Hin|Hin].
  - specialize (H id task Hin). lia.
  - simpl in Hin. destruct Hin as [E|[E|[E|[]]]]; injection E as <- _; lia.
Qed.

Lemma filter_all {A} (f : A -> bool) (l : list A) :
  (forall x, In x l -> f x = true) -> filter f l = l.
Proof.
  induction l as [|x l IH]; simpl; intros H; [reflexivity|].
  rewrite (H x (or_introl eq_refl)). rewrite IH; [reflexivity|].
  intros y Hy. apply H. right. exact Hy.
Qed.

Lemma stopMonitoring_monitored env s :
  ids_fresh s ->
  timers (world (exec stopMonitoring env (monitored s))) = timers (world s).
Proof.
  intros H. unfold exec, stopMonitoring, clearInterval, monitored.
  unfold bind, getThis, perform, updateWorld, ret.
  cbn [snd this world effects timers nextTimer set_timers set_intervals cancel
       healthCheckInterval memoryCleanupInterval githubSyncInterval].
  set (n := nextTimer (world s)).
  assert (K : forall k, (n <= k)%nat ->
                filter (fun t : nat * Task => negb (Nat.eqb (fst t) k)) (timers (world s))
                = timers (world s)).
  { intros k Hk. apply filter_all. intros [id task] Hin. specialize (H id task Hin).
    fold n in H. apply negb_true_iff, Nat.eqb_neq. simpl. lia. }
  assert (E1 : Nat.eqb (S n) n = false) by (apply Nat.eqb_neq; lia).
  assert (E2 : Nat.eqb (S (S n)) n = false) by (apply Nat.eqb_neq; lia).
  assert (E3 : Nat.eqb (S (S n)) (S n) = false) by (apply Nat.eqb_neq; lia).
  repeat first
    [ rewrite filter_app
    | rewrite K by lia
    | rewrite Nat.eqb_refl
    | rewrite E1 | rewrite E2 | rewrite E3
    | progress cbn [filter fst negb app] ].
  apply app_nil_r.
Qed.

(** X7.  [startMonitoring()] arms the three tasks and records their handles, and
    a [stopMonitoring()] that follows leaves exactly the timers that were
    armed before: the two calls cancel out. *)
Theorem startMonitoring_then_stopMonitoring e1 e2 s :
  ids_fresh s ->
  (forall task, armed (exec startMonitoring e1 s) task = true) /\
  timers (world (exec stopMonitoring e2 (exec startMonitoring e1 s))) = timers (world s).
Proof.
  intros H. unfold exec at 1 3. rewrite startMonitoring_run. cbn [snd]. split.
  - intros task. unfold armed, monitored. cbn [world timers set_timers].
    rewrite existsb_app. apply orb_true_iff. right. destruct task; reflexivity.
  - apply stopMonitoring_monitored, H.
Qed.

Lemma startMonitoring_then_stopMonitoring_witness :
  let s := boot "/workspace" default_options empty_world in
  timers (world (exec stopMonitoring (friendly_env 1) (exec startMonitoring (friendly_env 0) s)))
  = [].
Proof.
  intros s.
  refine (proj2 (startMonitoring_then_stopMonitoring (friendly_env 0) (friendly_env 1) s _)).
  intros id task [].
Defined.

(** X8.  Arming twice without cancelling in between loses the first three
    handles: the [stopMonitoring()] that follows cancels the second set
    only, and the first three timers stay armed. *)
Theorem startMonitoring_twice_leaks e1 e2 e3 s :
  ids_fresh s ->
  let n := nextTimer (world s) in
  timers (world (exec stopMonitoring e3
                   (exec startMonitoring e2 (exec startMonitoring e1 s))))
  = (timers (world s) ++ [(n, HealthCheck); (S n, MemoryCleanup); (S (S n), GitHubSync)])%list.
Proof.
  intros H n. unfold exec at 2 3. rewrite !startMonitoring_run. cbn [snd].
  rewrite (stopMonitoring_monitored e3 (monitored s) (monitored_fresh s H)). reflexivity.
Qed.

Lemma startMonitoring_twice_leaks_witness :
  let s := boot "/workspace" default_options empty_world in
  timers (world (exec stopMonitoring (friendly_env 2)
                   (exec startMonitoring (friendly_env 1)
                      (exec startMonitoring (friendly_env 0) s))))
  = [(0%nat, HealthCheck); (1%nat, MemoryCleanup); (2%nat, GitHubSync)].
Proof.
  intros s.
  refine (startMonitoring_twice_leaks (friendly_env 0) (friendly_env 1) (friendly_env 2) s _).
  intros id task [].
Defined.

(* ===================================================================== *)
(** * Starting the child process *)
(* ===================================================================== *)

Lemma startMainProcess_spawned env s p :
  spawn_result env = SpawnPid p ->
  result startMainProcess env s = Returned tt /\
  this (exec startMainProcess env s)
  = set_startTime (Some (now env))
      (set_isRunning true
         (set_process (Some {| pid := Some p; exited := false |}) (this s))) /\
  pidFile (world (exec startMainProcess env s))
  = match write_error env PidFile with
    | None => Some p
    | Some _ => pidFile (world s)
    end /\
  spawns (effects (exec startMainProcess env s)) = S (spawns (effects s)).
Proof.
  intros H. unfold startMainProcess, savePID, printWarning.
  unfold result, exec, try_catch, bind, getThis, ask, perform, update, updateWorld,
    throw, ret.
  cbv beta. rewrite H.
  cbn [fst snd this world effects process pid set_process set_isRunning set_startTime].
  destruct (write_error env PidFile);
    cbn [fst snd this world effects pidFile set_pidFile];
    rewrite ?spawns_app; set (n := spawns (effects s)).
  all: repeat split.
  all: cbv beta iota delta [spawns filter List.length]; lia.
Qed.

(** X9.  When the spawn succeeds, [startMainProcess()] returns with the agent
    marked as running, holding the child's pid and the start time, after
    spawning exactly one child.  The PID marker holds the pid when it could
    be written; a failed write is only a warning.  A status query that
    follows reports the running agent and, for a start time other than 0,
    the time elapsed since. *)
Theorem startMainProcess_success env env' s p :
  spawn_result env = SpawnPid p ->
  let s' := exec startMainProcess env s in
  result startMainProcess env s = Returned tt /\
  spawns (effects s') = S (spawns (effects s)) /\
  restartCount (this s') = restartCount (this s) /\
  pidFile (world s') = match write_error env PidFile with
                       | None => Some p
                       | Some _ => pidFile (world s)
                       end /\
  exists st,
    result getStatus env' s' = Returned st /\
    status_isRunning st = true /\
    status_pid st = Some p /\
    (now env <> 0 -> status_uptime st = now env' - now env).
Proof.
  intros H s'. destruct (startMainProcess_spawned env s p H) as (R & T & P & S).
  fold s' in T, P, S.
  refine (conj R (conj S (conj _ (conj P _)))).
  - rewrite T. reflexivity.
  - eexists. split; [reflexivity|].
    cbn [status_isRunning status_pid status_uptime]. rewrite T.
    cbn [isRunning process startTime pid set_startTime set_isRunning set_process].
    refine (conj eq_refl (conj eq_refl _)).
    intros Hn. unfold truthy_number. destruct (now env); [contradiction | reflexivity ..].
Qed.

Lemma startMainProcess_success_witness :
  let s' := exec startMainProcess (friendly_env 1000)
              (boot "/workspace" default_options empty_world) in
  pidFile (world s') = Some 4242%nat /\ isRunning (this s') = true.
Proof.
  intros s'.
  split; [|reflexivity].
  exact (proj1 (proj2 (proj2 (proj2
           (startMainProcess_success (friendly_env 1000) (friendly_env 2000)
              (boot "/workspace" default_options empty_world) 4242 eq_refl))))).
Defined.

(* ===================================================================== *)
(** * Collaborators: GitHub client and configuration *)
(* ===================================================================== *)

Lemma initializeGitHubIntegration_never_throws : never_throws initializeGitHubIntegration.
Proof. nothrow. Qed.

(** X10.  [initializeGitHubIntegration()] never throws.  It touches nothing but
    the two GitHub fields of the agent and prints one line; the connected
    flag can only become true through an [authenticate()] that returned
    true, and a connected flag stays backed by a client object. *)
Theorem initializeGitHubIntegration_is_contained env s :
  let s' := exec initializeGitHubIntegration env s in
  result initializeGitHubIntegration env s = Returned tt /\
  same_but_github s s' /\
  (exists l text, effects s' = (effects s ++ [Console l text])%list) /\
  (githubConnected (this s') = true ->
   githubConnected (this s) = true \/ github_authenticate env = Returned true) /\
  (connected_has_client (this s) -> connected_has_client (this s')).
Proof.
  destruct s as [a w t]. destruct a.
  unfold initializeGitHubIntegration, lift, printInfo, printWarning, same_but_github,
    connected_has_client.
  unfold result, exec, try_catch, bind, ask, update, perform, throw, ret.
  cbv beta.
  destruct (github_module env); [destruct (github_authenticate env) as [[|]|e]|];
    cbn; (split; [reflexivity|]); (split; [split; reflexivity|]);
    (split; [eexists; eexists; reflexivity|]); split; auto; try discriminate.
Qed.

Lemma initializeGitHubIntegration_is_contained_witness :
  connected_has_client
    (this (exec initializeGitHubIntegration (friendly_env 0) connected_machine)).
Proof.
  refine (proj2 (proj2 (proj2 (proj2
            (initializeGitHubIntegration_is_contained (friendly_env 0) connected_machine)))) _).
  intros _. discriminate.
Defined.

Lemma loadConfiguration_never_throws : never_throws loadConfiguration.
Proof. nothrow. Qed.

(** X11.  For options and a [config.json] whose port, where present, is an
    integer and whose log level, where present, is a string, the port in
    effect is never 0 and the log level never empty: a 0 or an empty string
    in the options or in the file falls back to the default or to the value
    in place.  Loading the configuration never throws, whether the file is
    missing, unparsable or well formed, and without a [backgroundAgent]
    section the agent is left as it was.  Settings of another JSON type
    (a port written as the string "0", say) are copied by the source as
    they stand and are not covered. *)
Theorem settings_stay_valid env cwd options w :
  let s := boot cwd options w in
  let s' := exec loadConfiguration env s in
  result loadConfiguration env s = Returned tt /\
  port (this s) <> 0 /\ logLevel (this s) <> "" /\
  port (this s') <> 0 /\ logLevel (this s') <> "" /\
  (match configFile w with
   | Some (ConfigJson (Some _)) => True
   | _ => this s' = this s
   end).
Proof.
  intros s s'.
  assert (P : forall x d, d <> 0 -> or_else (truthy_number x) d <> 0).
  { intros [[| |]|] d Hd; simpl; try exact Hd; discriminate. }
  assert (L : forall x d, d <> "" -> or_else (truthy_string x) d <> "").
  { intros [[|]|] d Hd; simpl; try exact Hd; discriminate. }
  assert (P0 : port (this s) <> 0) by (apply P; discriminate).
  assert (L0 : logLevel (this s) <> "") by (apply L; discriminate).
  split.
  { destruct (loadConfiguration_never_throws env s) as [[] H]. exact H. }
  refine (conj P0 (conj L0 _)).
  subst s'. unfold loadConfiguration, printInfo, printWarning.
  unfold exec, try_catch, bind, getWorld, update, perform, throw, ret.
  cbv beta. change (world s) with w.
  destruct (configFile w) as [[[c|]|]|];
    cbn [snd this port logLevel set_port set_logLevel];
    repeat split; auto.
Qed.

(* ===================================================================== *)
(** * Startup of the collaborators and the healthy health check *)
(* ===================================================================== *)

#[local] Instance same_lifecycle_preorder : PreOrder same_lifecycle.
Proof.
  split.
  - intros s. repeat split.
  - intros s1 s2 s3 (A1 & A2 & A3 & A4 & A5 & A6) (B1 & B2 & B3 & B4 & B5 & B6).
    repeat split; try congruence.
    + destruct A5 as (X & _), B5 as (Y & _). congruence.
    + destruct A5 as (_ & X & _), B5 as (_ & Y & _). congruence.
    + destruct A5 as (_ & _ & X & _), B5 as (_ & _ & Y & _). congruence.
    + destruct A5 as (_ & _ & _ & X), B5 as (_ & _ & _ & Y). congruence.
Qed.

#[local] Instance same_store_preorder : PreOrder same_store.
Proof.
  split.
  - intros s. reflexivity.
  - intros s1 s2 s3 H1 H2. unfold same_store in *. congruence.
Qed.

Ltac lifecycle_prim :=
  let env := fresh "env" in
  let s := fresh "s" in
  intros env s;
  unfold exec, update, updateWorld, perform, same_lifecycle, same_timers, same_store;
  simpl;
  repeat match goal with
         | |- context [match ?x with _ => _ end] => destruct x; simpl
         end;
  rewrite ?spawns_app;
  repeat split; try reflexivity; apply Nat.add_0_r.

Lemma initializeComponents_never_throws : never_throws initializeComponents.
Proof. nothrow. Qed.

Lemma initializeComponents_keeps_lifecycle : keeps same_lifecycle initializeComponents.
Proof. frame_with lifecycle_prim. Qed.

(** X12.  Initialising the collaborators never aborts a start: whatever fails
    (GitHub module or authentication, snapshot, configuration file), the
    method returns normally, and it leaves the process handle, the running
    flag, the restart counter, the start time and the timers alone and
    spawns nothing. *)
Theorem initializeComponents_is_best_effort env s :
  result initializeComponents env s = Returned tt /\
  same_lifecycle s (exec initializeComponents env s).
Proof.
  split.
  - destruct (initializeComponents_never_throws env s) as [[] H]. exact H.
  - apply initializeComponents_keeps_lifecycle.
Qed.

Lemma performMemoryCleanup_keeps_lifecycle : keeps same_lifecycle performMemoryCleanup.
Proof. frame_with lifecycle_prim. Qed.

Lemma initializeGitHubIntegration_keeps_lifecycle :
  keeps same_lifecycle initializeGitHubIntegration.
Proof. frame_with lifecycle_prim. Qed.

Lemma initializeGitHubIntegration_keeps_store : keeps same_store initializeGitHubIntegration.
Proof. frame_with lifecycle_prim. Qed.

#[local] Hint Resolve performMemoryCleanup_keeps_lifecycle
  initializeGitHubIntegration_keeps_lifecycle initializeGitHubIntegration_keeps_store : frame.

(** X13.  A health check that finds the process up never restarts, stops, spawns
    or re-arms anything: process handle, running flag, restart counter,
    start time and timers are as before.  It runs the memory cleanup exactly
    when the heap in use is strictly above 100 MB, and otherwise leaves the
    store untouched. *)
Theorem healthy_check_is_harmless env s :
  detects_failure (this s) = false ->
  let s' := exec performHealthCheck env s in
  same_lifecycle s s' /\
  memoryStore (this s')
  = if heapUsed env >? 104857600
    then evictOlderThan (now env) 86400000 (memoryStore (this s))
    else memoryStore (this s).
Proof.
  intros H s'. subst s'. unfold performHealthCheck. split.
  - match goal with
    | |- same_lifecycle s (exec (try_catch ?m ?h) env s) =>
        transitivity (exec m env s);
          [| apply try_catch_after; [typeclasses eauto | intro; frame_with lifecycle_prim]]
    end.
    erewrite exec_step by reflexivity. rewrite H.
    match goal with
    | |- same_lifecycle s (exec ?m env s) =>
        assert (K : keeps same_lifecycle m) by frame_with lifecycle_prim; apply K
    end.
  - match goal with
    | |- context [try_catch ?m ?h] =>
        assert (K : same_store (exec m env s) (exec (try_catch m h) env s))
          by (apply try_catch_after; [typeclasses eauto | intro; frame_with lifecycle_prim]);
        unfold same_store in K; rewrite K; clear K
    end.
    erewrite exec_step by reflexivity. rewrite H.
    erewrite exec_step by reflexivity.
    match goal with
    | |- context [exec (bind ?m ?k) env s] =>
        assert (K : same_store (exec m env s) (exec (bind m k) env s))
          by (apply bind_after; [typeclasses eauto | intro; frame_with lifecycle_prim]);
        unfold same_store in K; rewrite K; clear K
    end.
    change (100 * 1024 * 1024) with 104857600.
    destruct (heapUsed env >? 104857600).
    + erewrite exec_step by reflexivity. rewrite performMemoryCleanup_store. reflexivity.
    + reflexivity.
Qed.

Lemma healthy_check_is_harmless_witness :
  let s := exec startMainProcess (friendly_env 1000)
             (boot "/workspace" default_options empty_world) in
  restartCount (this (exec performHealthCheck (friendly_env 31000) s)) = 0%nat.
Proof.
  intros s.
  destruct (healthy_check_is_harmless (friendly_env 31000) s eq_refl)
    as [(_ & _ & R & _) _].
  exact R.
Defined.

(* ===================================================================== *)
(** * Stopping, restarting and shutting down *)
(* ===================================================================== *)

#[local] Instance same_forced_preorder : PreOrder same_forced.
Proof.
  split.
  - intros s. split; reflexivity.
  - intros s1 s2 s3 [A1 A2] [B1 B2]. split; congruence.
Qed.

#[local] Instance same_pid_preorder : PreOrder same_pid.
Proof.
  split.
  - intros s. reflexivity.
  - intros s1 s2 s3 H1 H2. unfold same_pid in *. congruence.
Qed.

#[local] Instance same_spawns_preorder : PreOrder same_spawns.
Proof.
  split.
  - intros s. reflexivity.
  - intros s1 s2 s3 H1 H2. unfold same_spawns in *. congruence.
Qed.

#[local] Instance log_extended_preorder : PreOrder log_extended.
Proof.
  split.
  - intros s. exists []. symmetry. apply app_nil_r.
  - intros s1 s2 s3 [l1 H1] [l2 H2]. exists (l1 ++ l2)%list.
    rewrite H2, H1. symmetry. apply app_assoc.
Qed.

Lemma forced_kills_app l1 l2 :
  forced_kills (l1 ++ l2) = (forced_kills l1 + forced_kills l2)%nat.
Proof. unfold forced_kills. rewrite filter_app, length_app. reflexivity. Qed.

Ltac effects_prim :=
  let env := fresh "env" in
  let s := fresh "s" in
  intros env s;
  unfold exec, update, updateWorld, perform, same_forced, same_pid, same_spawns, cancel;
  simpl;
  repeat match goal with
         | |- context [match ?x with _ => _ end] => destruct x; simpl
         end;
  rewrite ?spawns_app, ?forced_kills_app;
  repeat split; try reflexivity; apply Nat.add_0_r.

Ltac log_prim :=
  let env := fresh "env" in
  let s := fresh "s" in
  intros env s;
  unfold exec, update, updateWorld, perform, log_extended, cancel;
  simpl;
  first [ exists []; symmetry; apply app_nil_r | eexists; reflexivity ].

(** X15.  [restart()] never brings the agent up: in every state it returns
    false, leaves the running flag false, spawns nothing and does not touch
    the restart counter. *)
Theorem restart_never_succeeds env s :
  result restart env s = Returned false /\
  isRunning (this (exec restart env s)) = false /\
  restartCount (this (exec restart env s)) = restartCount (this s) /\
  spawns (effects (exec restart env s)) = spawns (effects s).
Proof.
  assert (R : returns false restart).
  { unfold restart. do 3 (apply returns_bind; [solve [nothrow] | intro]).
    apply start_returns_false. }
  assert (S : keeps same_spawns start).
  { intros env' s'. unfold same_spawns, exec. rewrite start_run. cbn [snd effects].
    rewrite spawns_app. apply Nat.add_0_r. }
  assert (K : keeps same_spawns restart).
  { unfold restart. apply keeps_bind; [typeclasses eauto | frame_with effects_prim | intro].
    apply keeps_bind; [typeclasses eauto | frame_with effects_prim | intro].
    apply keeps_bind; [typeclasses eauto | frame_with effects_prim | intro].
    exact S. }
  refine (conj (R env s) (conj (restart_stopped env s I) (conj _ (K env s)))).
  apply restart_keeps_counter.
Qed.

(** X16.  Escalation in [stop()].  With a process handle, SIGKILL is sent
    exactly when the child was already gone or does not exit on SIGTERM
    within the grace period; a live child that honours SIGTERM is never
    force-killed. *)
Theorem stop_escalates_only_when_needed env s p :
  process (this s) = Some p ->
  forced_kills (effects (exec stop env s))
  = (forced_kills (effects s) + if negb (exited p) && exits_on_SIGTERM env then 0 else 1)%nat.
Proof.
  intros Hp. unfold stop.
  match goal with
  | |- context [try_catch ?m ?h] =>
      assert (K : same_forced (exec m env s) (exec (try_catch m h) env s))
        by (apply (try_catch_after same_forced); intro; frame_with effects_prim);
      destruct K as [K1 _]; rewrite K1; clear K1
  end.
  do 2 (erewrite exec_step by reflexivity). cbn [this]. rewrite Hp.
  match goal with
  | |- context [exec (bind ?m ?k) env ?s1] =>
      assert (K : same_forced (exec m env s1) (exec (bind m k) env s1))
        by (apply (bind_after same_forced); intro; frame_with effects_prim);
      destruct K as [K1 _]; rewrite K1; clear K1
  end.
  unfold waitForProcessExit, childExit, onProcessExit, kill, emit, printInfo, printWarning.
  unfold exec, bind, getThis, ask, perform, update, ret.
  cbv beta. cbn [this world effects snd]. rewrite Hp. cbv beta iota.
  destruct p as [pp ex]. cbn [exited pid].
  destruct ex; cbn [negb andb];
    [|destruct (exits_on_SIGTERM env)];
    cbn [snd this effects world process set_process set_isRunning];
    rewrite ?Hp; cbn [snd this effects world process set_process set_isRunning pid];
    rewrite ?forced_kills_app; set (n := forced_kills (effects s));
    cbv beta iota delta [forced_kills filter List.length]; lia.
Qed.

Lemma stop_escalates_only_when_needed_witness :
  let s := exec startMainProcess (friendly_env 1000)
             (boot "/workspace" default_options empty_world) in
  forced_kills (effects (exec stop (friendly_env 2000) s)) = 0%nat /\
  forced_kills (effects (exec stop (friendly_env 3000) (exec stop (friendly_env 2000) s)))
  = 1%nat.
Proof.
  intros s. split.
  - exact (stop_escalates_only_when_needed (friendly_env 2000) s
             {| pid := Some 4242%nat; exited := false |} eq_refl).
  - exact (stop_escalates_only_when_needed (friendly_env 3000)
             (exec stop (friendly_env 2000) s)
             {| pid := Some 4242%nat; exited := true |} eq_refl).
Defined.

Lemma emit_stopped_effects env s :
  effects (exec (emit EvStopped) env s)
  = (effects s ++ [Emit EvStopped] ++ map ClearInterval (handles (this s)))%list.
Proof.
  unfold emit, log, stopMonitoring, clearInterval, handles.
  unfold exec, bind, perform, update, updateWorld, getThis, ask, ret.
  simpl.
  destruct (write_error env LogFile);
    destruct (healthCheckInterval (this s)) eqn:Eh;
    destruct (memoryCleanupInterval (this s)) eqn:Em;
    destruct (githubSyncInterval (this s)) eqn:Eg;
    simpl; rewrite ?Eh; simpl; rewrite ?Em; simpl; rewrite ?Eg; simpl;
    rewrite <- ?app_assoc; reflexivity.
Qed.

Lemma removePidFile_run env s :
  exists w,
    removePidFile env s = (Returned tt, {| this := this s; world := w; effects := effects s |}).
Proof.
  unfold removePidFile, try_catch, bind, getWorld, ask, updateWorld, throw, ret.
  destruct s as [a w t]. cbn [this world effects].
  destruct (pidFile w); [destruct (rm_error env)|]; eexists; reflexivity.
Qed.

(** X17.  Without a process handle [stop()] sends no signal and waits for
    nothing: it prints its two lines, emits 'stopped' and cancels the
    timers whose handles the agent holds. *)
Theorem stop_without_process env s :
  process (this s) = None ->
  effects (exec stop env s)
  = (effects s ++
     [Console LInfo "Stopping Cursor background agent...";
      Console LSuccess "Cursor background agent stopped";
      Emit EvStopped] ++ map ClearInterval (handles (this s)))%list.
Proof.
  intros Hp. unfold stop.
  match goal with
  | |- context [try_catch ?m ?h] =>
      assert (B : returns true m)
        by (repeat (apply returns_bind; [solve [nothrow] | intro]); apply returns_ret);
      rewrite (exec_try_catch_returned m h env s true (B env s)); clear B
  end.
  do 2 (erewrite exec_step by reflexivity). cbn [this]. rewrite Hp.
  erewrite exec_step by reflexivity.
  match goal with
  | |- context [exec (bind removePidFile ?k) env ?s1] =>
      destruct (removePidFile_run env s1) as [w Hw];
      rewrite (exec_step removePidFile k env s1 tt _ Hw)
  end.
  do 2 (erewrite exec_step by reflexivity).
  match goal with
  | |- context [exec (bind (emit EvStopped) ?k) env ?s1] =>
      assert (K : same_agent (exec (emit EvStopped) env s1) (exec (bind (emit EvStopped) k) env s1)
                  /\ effects (exec (bind (emit EvStopped) k) env s1)
                     = effects (exec (emit EvStopped) env s1))
  end.
  { destruct (emit_never_throws EvStopped env
                {| this := set_isRunning false (this s); world := w;
                   effects := (effects s ++
                               [Console LInfo "Stopping Cursor background agent..."]) ++
                              [Console LSuccess "Cursor background agent stopped"] |})
      as [[] Hx].
    cbn [this world effects] in *.
    erewrite exec_bind by exact Hx. split; reflexivity. }
  destruct K as [_ K]. cbn [this world effects] in *. rewrite K, emit_stopped_effects.
  cbn [this effects handles healthCheckInterval memoryCleanupInterval githubSyncInterval
       set_isRunning].
  rewrite <- !app_assoc. reflexivity.
Qed.

Lemma stop_without_process_witness :
  effects (exec stop (friendly_env 0) (boot "/workspace" default_options empty_world))
  = [Console LInfo "Stopping Cursor background agent...";
     Console LSuccess "Cursor background agent stopped";
     Emit EvStopped].
Proof.
  exact (stop_without_process (friendly_env 0)
           (boot "/workspace" default_options empty_world) eq_refl).
Defined.

(** X18.  The PID marker after [stop()]: gone when the removal succeeded (or
    there was none), still there when the removal failed; [stop()] returns
    true in both cases. *)
Theorem stop_clears_pid_marker env s :
  result stop env s = Returned true /\
  pidFile (world (exec stop env s))
  = match rm_error env with
    | None => None
    | Some _ => pidFile (world s)
    end.
Proof.
  split; [apply stop_returns_true|].
  unfold stop.
  match goal with
  | |- context [try_catch ?m ?h] =>
      assert (K : same_pid (exec m env s) (exec (try_catch m h) env s))
        by (apply (try_catch_after same_pid); intro; frame_with effects_prim);
      unfold same_pid in K; rewrite K; clear K
  end.
  do 2 (erewrite exec_step by reflexivity). cbn [this].
  match goal with
  | |- context [exec (bind ?m ?k) env ?s1] =>
      assert (N : never_throws m) by nothrow;
      assert (F : keeps same_pid m) by frame_with effects_prim;
      destruct (N env s1) as [[] Hx]; rewrite (exec_bind m k env s1 tt Hx);
      specialize (F env s1); unfold same_pid in F; cbn [world] in F;
      set (s2 := exec m env s1) in *; clearbody s2; clear Hx N
  end.
  match goal with
  | |- context [exec (bind ?m ?k) env s2] =>
      assert (K : same_pid (exec m env s2) (exec (bind m k) env s2))
        by (apply (bind_after same_pid); intro; frame_with effects_prim);
      unfold same_pid in K; rewrite K; clear K
  end.
  rewrite <- F. unfold exec, removePidFile.
  unfold try_catch, bind, getWorld, ask, updateWorld, throw, ret. cbv beta.
  destruct (pidFile (world s2)) eqn:E; destruct (rm_error env);
    cbn [snd world pidFile set_pidFile]; rewrite ?E; reflexivity.
Qed.

Lemma start_keeps_spawns : keeps same_spawns start.
Proof.
  intros env s. unfold same_spawns, exec. rewrite start_run. cbn [snd effects].
  rewrite spawns_app. apply Nat.add_0_r.
Qed.

#[local] Hint Resolve start_keeps_spawns : frame.

Lemma step_keeps_spawns env o s : same_spawns s (step env o s).
Proof.
  assert (K : forall A (m : Async A), keeps same_spawns m -> same_spawns s (exec m env s))
    by (intros A m H; apply H).
  destruct o; cbn [step]; apply K; frame_with effects_prim.
Qed.

(** X19.  No sequence of operations ever spawns a child process: starts,
    restarts and health-triggered recoveries included, the number of
    spawns stays what it was.  The only spawn in the class sits in
    [startMainProcess], which no run reaches. *)
Theorem no_run_spawns ops : forall s, spawns (effects (run ops s)) = spawns (effects s).
Proof.
  induction ops as [|[env o] ops IH]; intros s; simpl; [reflexivity|].
  rewrite IH. apply step_keeps_spawns.
Qed.

Lemma step_extends_log env o s : log_extended s (step env o s).
Proof.
  assert (K : forall A (m : Async A), keeps log_extended m -> log_extended s (exec m env s))
    by (intros A m H; apply H).
  destruct o; cbn [step]; apply K; frame_with log_prim.
Qed.

(** X20.  The log file is append-only: over any run, including runs through
    [startMainProcess] and the collaborators, the log afterwards is the log
    before followed by the lines written since.  Nothing is ever removed
    or rewritten. *)
Theorem log_is_append_only ops : forall s,
  exists l, logFile (world (run ops s)) = (logFile (world s) ++ l)%list.
Proof.
  induction ops as [|[env o] ops IH]; intros s; simpl.
  - exists []. symmetry. apply app_nil_r.
  - destruct (IH (step env o s)) as [l2 H2].
    destruct (step_extends_log env o s) as [l1 H1].
    exists (l1 ++ l2)%list. rewrite H2, H1. symmetry. apply app_assoc.
Qed.

Lemma cleanup_never_throws : never_throws cleanup.
Proof. nothrow. Qed.

(** X21.  [cleanup()], the signal handlers' shutdown path, never throws.  It
    leaves the agent not running and the memory store as it was; when the
    armed timers are the tracked ones none stays armed; and when the
    snapshot can be written, the file holds the store's entries. *)
Theorem cleanup_shuts_down env s :
  let s' := exec cleanup env s in
  result cleanup env s = Returned tt /\
  isRunning (this s') = false /\
  memoryStore (this s') = memoryStore (this s) /\
  (timers_tracked s -> timers (world s') = []) /\
  (write_error env MemoryFile = None ->
   memoryFile (world s')
   = Some (JSON_stringify (JsObject.fromEntries (JsMap.entries (memoryStore (this s)))))).
Proof.
  intros s'. subst s'.
  assert (G : forall T (m : Async T), keeps same_agent m -> hoare stopped m stopped).
  { intros T m H. apply (hoare_frame same_agent); [exact H|].
    unfold same_agent, stopped. intros s1 s2 E. rewrite E. auto. }
  assert (L : forall T (m : Async T), keeps timers_shrunk m -> hoare no_timers m no_timers).
  { intros T m H. apply (hoare_frame timers_shrunk); [exact H|].
    unfold no_timers. intros s1 s2 (E & _) H1. apply nil_of_no_member.
    intros x Hx. apply E in Hx. rewrite H1 in Hx. exact Hx. }
  refine (conj _ (conj _ (conj _ (conj _ _)))).
  - destruct (cleanup_never_throws env s) as [[] H]. exact H.
  - assert (H : hoare (fun _ => True) cleanup stopped).
    { unfold cleanup.
      do 2 (apply hoare_bind_inv; [solve [nothrow] | apply hoare_true | intro]).
      apply hoare_bind_end; [apply stop_stopped | intros _; apply G; frame]. }
    apply (H env s I).
  - assert (H : keeps same_store cleanup) by (unfold cleanup; frame_with lifecycle_prim).
    apply (H env s).
  - assert (H : hoare timers_tracked cleanup no_timers).
    { unfold cleanup. apply hoare_bind_end; [apply stopMonitoring_cancels|].
      intros _. apply L. frame_with shrunk_prim. }
    apply (H env s).
  - intros Hw. unfold cleanup.
    assert (N : never_throws stopMonitoring) by nothrow.
    destruct (N env s) as [[] Hx]. rewrite (exec_bind _ _ env s tt Hx).
    assert (S1 : same_agent s (exec stopMonitoring env s))
      by (assert (K : keeps same_agent stopMonitoring) by frame; apply K).
    assert (S2 : same_snapshot s (exec stopMonitoring env s))
      by (assert (K : keeps same_snapshot stopMonitoring) by frame_with snapshot_prim;
          apply K).
    set (s1 := exec stopMonitoring env s) in *. clearbody s1.
    match goal with
    | |- context [exec (bind saveMemory ?k) env s1] =>
        assert (K : same_snapshot (exec saveMemory env s1) (exec (bind saveMemory k) env s1))
          by (apply (bind_after same_snapshot); intro; frame_with snapshot_prim);
        unfold same_snapshot in K; rewrite K; clear K
    end.
    rewrite (saveMemory_persisted env s1 Hw). cbn [world memoryFile set_memoryFile].
    unfold same_agent in S1. rewrite S1. reflexivity.
Qed.

Lemma cleanup_shuts_down_witness :
  memoryFile (world (exec cleanup (friendly_env 0) sample_machine))
  = Some (JsonObject
            [("7", {| payload := "gamma"; timestamp := 100000000 |});
             ("session", {| payload := "alpha"; timestamp := 0 |});
             ("notes", {| payload := "beta"; timestamp := 90000000 |})]) /\
  timers (world (exec cleanup (friendly_env 0) sample_machine)) = [].
Proof.
  split.
  - exact (proj2 (proj2 (proj2 (proj2 (cleanup_shuts_down (friendly_env 0) sample_machine))))
             eq_refl).
  - refine (proj1 (proj2 (proj2 (proj2 (cleanup_shuts_down (friendly_env 0) sample_machine))))
              _).
    intros id task [].
Defined.

#[local] Instance same_github_preorder : PreOrder same_github.
Proof.
  split.
  - intros s. split; reflexivity.
  - intros s1 s2 s3 [A1 A2] [B1 B2]. split; congruence.
Qed.

Ltac github_prim :=
  let env := fresh "env" in
  let s := fresh "s" in
  intros env s;
  unfold exec, update, updateWorld, perform, same_github;
  simpl;
  repeat match goal with
         | |- context [match ?x with _ => _ end] => destruct x; simpl
         end;
  split; reflexivity.

Lemma initializeGitHubIntegration_connected env s :
  githubConnected (this (exec initializeGitHubIntegration env s))
  = if github_module env
    then match github_authenticate env with
         | Returned b => b
         | Thrown _ => githubConnected (this s)
         end
    else githubConnected (this s).
Proof.
  unfold initializeGitHubIntegration, lift, printInfo, printWarning.
  unfold exec, try_catch, bind, ask, update, perform, throw, ret.
  cbv beta.
  destruct (github_module env); [destruct (github_authenticate env) as [[|]|e]|];
    reflexivity.
Qed.

(** X14.  Reconnection in the health check.  A check that finds the process up
    tries to re-authenticate only when a client object exists and the
    connected flag is off; afterwards the flag is on exactly if it was on
    before or that attempt succeeded.  An agent without a client object is
    never connected by a health check. *)
Theorem healthy_check_reconnects env s :
  detects_failure (this s) = false ->
  githubConnected (this (exec performHealthCheck env s))
  = githubConnected (this s) || (has_client (this s) && authenticates env).
Proof.
  intros H. unfold performHealthCheck.
  match goal with
  | |- context [try_catch ?m ?h] =>
      assert (K : same_github (exec m env s) (exec (try_catch m h) env s))
        by (apply (try_catch_after same_github); intro; frame_with github_prim);
      destruct K as [_ K]; rewrite K; clear K
  end.
  erewrite exec_step by reflexivity. rewrite H.
  erewrite exec_step by reflexivity.
  match goal with
  | |- context [exec (bind ?m ?k) env s] =>
      assert (N : never_throws m) by nothrow;
      assert (F : keeps same_github m) by frame_with github_prim;
      destruct (N env s) as [[] Hx]; rewrite (exec_bind m k env s tt Hx);
      specialize (F env s); destruct F as [F1 F2];
      set (s1 := exec m env s) in *; clearbody s1; clear Hx N
  end.
  erewrite exec_step by reflexivity.
  match goal with
  | |- context [exec (bind ?m ?k) env s1] =>
      assert (K : same_github (exec m env s1) (exec (bind m k) env s1))
        by (apply (bind_after same_github); intro; frame_with github_prim);
      destruct K as [_ K]; rewrite K; clear K
  end.
  unfold has_client, authenticates. rewrite <- F1, <- F2.
  destruct (githubAPI (this s1)) as [c|]; [|rewrite orb_false_r; reflexivity].
  destruct (githubConnected (this s1)) eqn:E; cbn [negb].
  - exact E.
  - erewrite exec_step by reflexivity. rewrite initializeGitHubIntegration_connected.
    cbn [this]. rewrite E.
    destruct (github_module env); [destruct (github_authenticate env) as [[|]|e]|];
      reflexivity.
Qed.

Lemma healthy_check_reconnects_witness :
  let s := exec startMainProcess (friendly_env 1000)
             {| this := set_githubAPI (Some GitHubClient)
                          (constructor "/workspace" default_options);
                world := empty_world; effects := [] |} in
  githubConnected (this s) = false /\
  githubConnected (this (exec performHealthCheck (friendly_env 31000) s)) = true.
Proof.
  intros s. split; [reflexivity|].
  exact (healthy_check_reconnects (friendly_env 31000) s eq_refl).
Defined.
